(** * mido.portmidi: input and output ports over the PortMidi driver

    A shallow embedding of [src/mido/portmidi.py].  Python integers are [Z]
    (unbounded, with [Z.land], [Z.lor], [Z.shiftl], [Z.shiftr] for [&], [|],
    [<<], [>>]); strings are [string]; the module global, the driver and the
    record of the calls made to [pm.lib] form the [World] threaded through
    every function; an exception is an outcome that keeps the state reached
    when it was raised. *)

From Stdlib Require Import ZArith List String Ascii Bool Lia.
From Stdlib Require Import Sorting.Sorted Sorting.Permutation Sorting.Mergesort.
From Stdlib Require Import Structures.Orders.
Import ListNotations.

Local Open Scope string_scope.
Local Open Scope Z_scope.

Set Implicit Arguments.

(** ** Values that cross the driver boundary *)

(** The C struct behind [Pm_GetDeviceInfo(id).contents].  The two strings
    are [char *] fields, read as a bytes object or as [None] for a null
    pointer; the three flags are C ints, read by the module through their
    truth value. *)
Module PmDeviceInfo.
Record t := make {
  interface : option string;
  name : option string;
  is_input : Z;
  is_output : Z;
  opened : Z
}.
End PmDeviceInfo.

(** One cell of the read buffer ([pm.PmEvent]). *)
Record PmEvent := { message : Z; timestamp : Z }.

(** Python truth value of an integer. *)
Definition truthy (n : Z) : bool := negb (n =? 0).

(** A value [bytes()] accepts. *)
Definition byte_value (b : Z) : bool := (0 <=? b) && (b <=? 255).

(** The object [DeviceInfo] (lines 92-117).  [is_input] and [is_output] are
    copied as they come, [opened] goes through [bool()]. *)
Module DeviceInfo.
Record t := make {
  device_id : Z;
  interface : string;
  name : string;
  is_input : Z;
  is_output : Z;
  opened : bool
}.

Definition set_opened (b : bool) (d : t) : t :=
  make (device_id d) (interface d) (name d) (is_input d) (is_output d) b.
End DeviceInfo.

(** What a message offers to [Output.send]: [message.type],
    [message.bytes()] and [message.bin()]. *)
Module Message.
Record t := make {
  type : string;
  bytes : list Z;
  bin : list Z
}.
End Message.

(** ** Exceptions and outcomes *)

(** The exceptions the module raises, one constructor per [raise] site, with
    the values formatted into the text. *)
Inductive exn : Type :=
| IOError_device_not_found (device_id : Z)      (* line 108 *)
| IOError_no_default_port                       (* line 184 *)
| IOError_port_already_opened (name : string)   (* line 206 *)
| IOError_unknown_port (name : string)          (* line 214 *)
| IOError_driver (text : string)                (* line 40 *)
| ValueError_send_on_closed_port                (* line 382 *)
| AttributeError (attr : string)
| UnicodeDecodeError (object : string)          (* lines 113-114 *)
| ValueError_bytes_out_of_range.                (* line 386 *)

Inductive outcome (A : Type) : Type :=
| Return (a : A)
| Raise (e : exn)
| OutOfFuel.
Arguments Raise {A} e.
Arguments OutOfFuel {A}.

(** State and exception monad: the state survives a raise, as the mutations
    of a Python function do. *)
Definition M (S A : Type) : Type := S -> outcome A * S.

Definition ret {S A} (a : A) : M S A := fun s => (Return a, s).
Definition raise {S A} (e : exn) : M S A := fun s => (Raise e, s).
Definition bind {S A B} (m : M S A) (k : A -> M S B) : M S B :=
  fun s =>
    match m s with
    | (Return a, s') => k a s'
    | (Raise e, s') => (Raise e, s')
    | (OutOfFuel, s') => (OutOfFuel, s')
    end.
Definition lift_outcome {S A} (r : outcome A) : M S A := fun s => (r, s).
Definition gets {S A} (f : S -> A) : M S A := fun s => (Return (f s), s).
Definition modify {S} (f : S -> S) : M S unit := fun s => (Return tt, f s).

Declare Scope monad_scope.
Delimit Scope monad_scope with monad.
Notation "x <- m ;; k" := (bind m (fun x => k))
  (at level 61, m at next level, right associativity) : monad_scope.
Notation "m ;; k" := (bind m (fun _ => k))
  (at level 61, right associativity) : monad_scope.
Local Open Scope monad_scope.

(** [for x in xs: body(x)], collecting what the bodies return. *)
Fixpoint for_each {S A B} (xs : list A) (body : A -> M S B) : M S (list B) :=
  match xs with
  | [] => ret []
  | x :: xs' => y <- body x ;; ys <- for_each xs' body ;; ret (y :: ys)
  end.

(** ** [bytes.decode('utf-8')] *)

Definition byte_of (c : ascii) : Z := Z.of_N (N_of_ascii c).

Definition within (lo hi : Z) (c : ascii) : bool :=
  (lo <=? byte_of c) && (byte_of c <=? hi).

(** Well-formed UTF-8, as Python 3 decodes it with [errors='strict']: the
    shortest form only, no surrogate, nothing above U+10FFFF. *)
Fixpoint utf8_valid (s : string) : bool :=
  match s with
  | EmptyString => true
  | String c0 rest =>
      let b0 := byte_of c0 in
      if b0 <=? 127 then utf8_valid rest
      else if within 194 223 c0 then
        match rest with
        | String c1 rest1 => within 128 191 c1 && utf8_valid rest1
        | _ => false
        end
      else if within 224 239 c0 then
        match rest with
        | String c1 (String c2 rest2) =>
            within (if b0 =? 224 then 160 else 128)
                   (if b0 =? 237 then 159 else 191) c1
            && within 128 191 c2 && utf8_valid rest2
        | _ => false
        end
      else if within 240 244 c0 then
        match rest with
        | String c1 (String c2 (String c3 rest3)) =>
            within (if b0 =? 240 then 144 else 128)
                   (if b0 =? 244 then 143 else 191) c1
            && within 128 191 c2 && within 128 191 c3 && utf8_valid rest3
        | _ => false
        end
      else false
  end.

(** [field.decode('utf-8')].  The text decoded is kept as its UTF-8 bytes,
    whose order is the order of Python strings; [None] has no [decode]. *)
Definition decode_utf8 (field : option string) : outcome string :=
  match field with
  | None => Raise (AttributeError "decode")
  | Some b => if utf8_valid b then Return b else Raise (UnicodeDecodeError b)
  end.

(** Lines 110-117: the attributes [DeviceInfo.__init__] reads from the
    struct, the interface decoded before the name. *)
Definition device_of_info (device_id : Z) (info : PmDeviceInfo.t)
  : outcome DeviceInfo.t :=
  match decode_utf8 (PmDeviceInfo.interface info) with
  | Return interface =>
      match decode_utf8 (PmDeviceInfo.name info) with
      | Return name =>
          Return (DeviceInfo.make device_id interface name
                    (PmDeviceInfo.is_input info)
                    (PmDeviceInfo.is_output info)
                    (truthy (PmDeviceInfo.opened info)))
      | Raise e => Raise e
      | OutOfFuel => OutOfFuel
      end
  | Raise e => Raise e
  | OutOfFuel => OutOfFuel
  end.

(** ** The driver [pm.lib] *)

(** A stream handle ([pm.PortMidiStreamPtr]); 0 is the null pointer. *)
Definition stream := Z.

(** The calls the module makes to [pm.lib], with their arguments. *)
Inductive call : Type :=
| C_Pm_Initialize
| C_Pm_Terminate
| C_Pm_GetErrorText (code : Z)
| C_Pm_CountDevices
| C_Pm_GetDeviceInfo (device_id : Z)
| C_Pm_GetDefaultInputDeviceID
| C_Pm_GetDefaultOutputDeviceID
| C_Pm_OpenInput (device_id buffer_size : Z)
| C_Pm_OpenOutput (device_id buffer_size latency : Z)
| C_Pm_Close (s : stream)
| C_Pm_Poll (s : stream)
| C_Pm_Read (s : stream) (length : Z)
| C_Pm_WriteShort (s : stream) (when msg : Z)
| C_Pm_WriteSysEx (s : stream) (when : Z) (data : list Z).

(** The driver is a deterministic machine with a state [D] of its own.  The
    queries observe the state; the stream operations return a code and the
    next state.  [Pm_OpenInput] and [Pm_OpenOutput] also return what they
    wrote through [byref(self._stream)]; [Pm_Read] is given the read buffer
    (one cell, [max_events = 1]) and returns it as the driver left it. *)
Class PmLib (D : Type) : Type := {
  Pm_Initialize : D -> D;
  Pm_Terminate : D -> D;
  Pm_GetErrorText : D -> Z -> string;
  Pm_CountDevices : D -> Z;
  Pm_GetDeviceInfo : D -> Z -> option PmDeviceInfo.t;
  Pm_GetDefaultInputDeviceID : D -> Z;
  Pm_GetDefaultOutputDeviceID : D -> Z;
  Pm_OpenInput : D -> stream -> Z -> Z -> Z * stream * D;
  Pm_OpenOutput : D -> stream -> Z -> Z -> Z -> Z * stream * D;
  Pm_Close : D -> stream -> Z * D;
  Pm_Poll : D -> stream -> Z * D;
  Pm_Read : D -> stream -> PmEvent -> Z -> Z * PmEvent * D;
  Pm_WriteShort : D -> stream -> Z -> Z -> Z * D;
  Pm_WriteSysEx : D -> stream -> Z -> list Z -> Z * D
}.

(** The byte-stream parser ([mido.parser.Parser]), as far as the module uses
    it: a fresh parser, [feed_byte], and the list [_parsed_messages]. *)
Class ParserOps (P : Type) : Type := {
  Parser : P;
  feed_byte : P -> Z -> P;
  _parsed_messages : P -> list Message.t
}.

(** The module global [_initialized], the driver, and the calls made so far
    (oldest first). *)
Record World (D : Type) : Type := {
  _initialized : bool;
  lib : D;
  calls : list call
}.

(** ** PackedEventCodec *)

(** [Output.send], lines 391-394: fold the bytes from last to first. *)
Definition packed_message_of (bytes : list Z) : Z :=
  fold_left (fun packed_message byte => Z.lor (Z.shiftl packed_message 8) byte)
            (rev bytes) 0.

(** The loop of [_print_event] (lines 48-51) and of [Input.poll] (lines
    323-326): take the low byte, shift right by 8, [n] times. *)
Fixpoint unpack (n : nat) (value : Z) : list Z :=
  match n with
  | O => []
  | S n' => Z.land value 255 :: unpack n' (Z.shiftr value 8)
  end.

(** [message_bytes] of [_print_event]: the 4 bytes of [event.message]. *)
Definition message_bytes (event : PmEvent) : list Z :=
  unpack 4 (Z.land (message event) 4294967295).

(** ** [sorted] on names *)

(** Names are compared as Python compares strings: character by character,
    a proper prefix first. *)
Module NameOrder <: TotalLeBool.
Definition t := string.
Definition leb := String.leb.
Definition leb_total : forall a1 a2, leb a1 a2 = true \/ leb a2 a1 = true :=
  String.leb_total.
End NameOrder.

Module NameSort := Sort NameOrder.

(** [sorted(names)]: a merge sort, as Python's. *)
Definition sorted (names : list string) : list string := NameSort.sort names.

(** ** Ports as objects *)

Inductive port_class : Type := Input | Output.

Definition is_Input (c : port_class) : bool :=
  match c with Input => true | Output => false end.

(** The attributes of a port.  [_parser] exists on an [Input] once its
    constructor has run to the end. *)
Module Port.
Record t (P : Type) : Type := make {
  __class__ : port_class;
  name : option string;
  closed : bool;
  _stream : stream;
  device : option DeviceInfo.t;
  _parser : option P
}.
Arguments make {P}.

Section Setters.
Context {P : Type}.
Definition set_name (v : option string) (p : t P) : t P :=
  make (__class__ p) v (closed p) (_stream p) (device p) (_parser p).
Definition set_closed (v : bool) (p : t P) : t P :=
  make (__class__ p) (name p) v (_stream p) (device p) (_parser p).
Definition set_stream (v : stream) (p : t P) : t P :=
  make (__class__ p) (name p) (closed p) v (device p) (_parser p).
Definition set_device (v : option DeviceInfo.t) (p : t P) : t P :=
  make (__class__ p) (name p) (closed p) (_stream p) v (_parser p).
Definition set_parser (v : option P) (p : t P) : t P :=
  make (__class__ p) (name p) (closed p) (_stream p) (device p) v.
End Setters.
End Port.

(** ** Module-level functions *)

Section Portmidi.
Context {D : Type} {pm : PmLib D}.

Definition log_call (c : call) (d : D) (w : World D) : World D :=
  {| _initialized := _initialized w; lib := d; calls := calls w ++ [c] |}.

(** A call [pm.lib.f(...)]: the driver moves on and the call is recorded. *)
Definition pm_call {A} (c : call) (f : D -> A * D) : M (World D) A :=
  fun w => let (a, d) := f (lib w) in (Return a, log_call c d w).

Definition pm_query {A} (c : call) (f : D -> A) : M (World D) A :=
  pm_call c (fun d => (f d, d)).

(** Lines 34-40. *)
Definition _check_error (return_value : Z) : M (World D) unit :=
  if return_value <? 0 then
    text <- pm_query (C_Pm_GetErrorText return_value)
                     (fun d => Pm_GetErrorText d return_value) ;;
    raise (IOError_driver text)
  else ret tt.

(** Lines 55-68. *)
Definition _initialize : M (World D) unit :=
  initialized <- gets (@_initialized D) ;;
  if initialized then
    pm_call C_Pm_Initialize (fun d => (tt, Pm_Initialize d)) ;;
    modify (fun w => {| _initialized := true; lib := lib w; calls := calls w |})
  else ret tt.

(** Lines 75-89; the last statement is the bare expression [_initialized]. *)
Definition _terminate : M (World D) unit :=
  initialized <- gets (@_initialized D) ;;
  if initialized then
    pm_call C_Pm_Terminate (fun d => (tt, Pm_Terminate d))
  else ret tt.

(** [DeviceInfo.__init__], lines 103-117. *)
Definition DeviceInfo__init__ (device_id : Z) : M (World D) DeviceInfo.t :=
  info_pointer <- pm_query (C_Pm_GetDeviceInfo device_id)
                           (fun d => Pm_GetDeviceInfo d device_id) ;;
  match info_pointer with
  | None => raise (IOError_device_not_found device_id)
  | Some info => lift_outcome (device_of_info device_id info)
  end.

(** [range(n)]. *)
Definition range (n : Z) : list Z := map Z.of_nat (seq 0 (Z.to_nat n)).

(** Lines 135-141. *)
Definition get_devices : M (World D) (list DeviceInfo.t) :=
  count <- pm_query C_Pm_CountDevices Pm_CountDevices ;;
  for_each (range count) DeviceInfo__init__.

(** Lines 144-150. *)
Definition get_input_names : M (World D) (list string) :=
  devices <- get_devices ;;
  let names :=
    map DeviceInfo.name
        (filter (fun device => truthy (DeviceInfo.is_input device)) devices) in
  ret (sorted names).

(** Lines 153-159. *)
Definition get_output_names : M (World D) (list string) :=
  devices <- get_devices ;;
  let names :=
    map DeviceInfo.name
        (filter (fun device => truthy (DeviceInfo.is_output device)) devices) in
  ret (sorted names).
End Portmidi.

(** ** Port, Input and Output *)

Section Ports.
Context {D : Type} {pm : PmLib D} {P : Type} {parser : ParserOps P}.

(** A method runs on [self] and the world. *)
Abbreviation St := (Port.t P * World D)%type.

Definition in_world {A} (m : M (World D) A) : M St A :=
  fun st => let (r, w) := m (snd st) in (r, (fst st, w)).

Definition self_get {A} (f : Port.t P -> A) : M St A :=
  fun st => (Return (f (fst st)), st).

Definition self_set (f : Port.t P -> Port.t P) : M St unit :=
  fun st => (Return tt, (f (fst st), snd st)).

(** The loop of lines 192-214 over the devices still to visit: [continue] on
    another name or on the other type, [raise] on an opened device, [break]
    with the device found, and the [else] branch when the devices run out. *)
Fixpoint find_device (this_is_input : bool) (name : string)
         (devices : list DeviceInfo.t) : outcome DeviceInfo.t :=
  match devices with
  | [] => Raise (IOError_unknown_port name)
  | device :: rest =>
      if negb (DeviceInfo.name device =? name)%string then
        find_device this_is_input name rest
      else if (if this_is_input
               then truthy (DeviceInfo.is_output device)
               else truthy (DeviceInfo.is_input device)) then
        find_device this_is_input name rest
      else if DeviceInfo.opened device then
        Raise (IOError_port_already_opened name)
      else Return device
  end.

(** Lines 177-214: the device the port binds to; [self.device] and
    [self.name] are set on the way. *)
Definition select_device (this_is_input : bool) (name : option string)
  : M St DeviceInfo.t :=
  match name with
  | None =>
      device_id <- in_world
        (if this_is_input
         then pm_query C_Pm_GetDefaultInputDeviceID Pm_GetDefaultInputDeviceID
         else pm_query C_Pm_GetDefaultOutputDeviceID Pm_GetDefaultOutputDeviceID) ;;
      if device_id <? 0 then raise IOError_no_default_port
      else
        device <- in_world (DeviceInfo__init__ device_id) ;;
        self_set (Port.set_device (Some device)) ;;
        self_set (Port.set_name (Some (DeviceInfo.name device))) ;;
        ret device
  | Some n =>
      devices <- in_world get_devices ;;
      device <- lift_outcome (find_device this_is_input n devices) ;;
      self_set (Port.set_device (Some device)) ;;
      ret device
  end.

(** [Pm_OpenInput(byref(self._stream), device_id, null, 1000, ...)] and
    [Pm_OpenOutput(byref(self._stream), device_id, null, 0, ..., 0)],
    lines 219-235. *)
Definition open_stream (this_is_input : bool) (device_id : Z) : M St Z :=
  fun st =>
    let self := fst st in
    let w := snd st in
    if this_is_input then
      let '(rv, s, d) := Pm_OpenInput (lib w) (Port._stream self) device_id 1000 in
      (Return rv, (Port.set_stream s self,
                   log_call (C_Pm_OpenInput device_id 1000) d w))
    else
      let '(rv, s, d) := Pm_OpenOutput (lib w) (Port._stream self) device_id 0 0 in
      (Return rv, (Port.set_stream s self,
                   log_call (C_Pm_OpenOutput device_id 0 0) d w)).

(** [self.device.opened = v]. *)
Definition set_device_opened (v : bool) : M St unit :=
  device <- self_get (@Port.device P) ;;
  match device with
  | None => raise (AttributeError "opened")
  | Some d => self_set (Port.set_device (Some (DeviceInfo.set_opened v d)))
  end.

(** The statements of [Port.__init__] after the first four assignments
    (lines 173-238). *)
Definition Port__init__body (name : option string) : M St unit :=
  in_world _initialize ;;
  cls <- self_get (@Port.__class__ P) ;;
  let this_is_input := is_Input cls in
  device <- select_device this_is_input name ;;
  let device_id := DeviceInfo.device_id device in
  rv <- open_stream this_is_input device_id ;;
  in_world (_check_error rv) ;;
  self_set (Port.set_closed false) ;;
  set_device_opened true.

(** [Port.__init__] on a new object of class [cls] (lines 167-238): the
    outcome, the object as the constructor left it, and the world. *)
Definition Port__init__ (cls : port_class) (name : option string)
  : World D -> outcome unit * St :=
  fun w => Port__init__body name (Port.make cls name true 0 None None, w).

(** [Input.__init__], lines 278-285. *)
Definition Input__init__ (name : option string) : World D -> outcome unit * St :=
  fun w =>
    match Port__init__ Input name w with
    | (Return _, st) => self_set (Port.set_parser (Some Parser)) st
    | (r, st) => (r, st)
    end.

(** [Output.__init__], lines 371-377. *)
Definition Output__init__ (name : option string) : World D -> outcome unit * St :=
  Port__init__ Output name.

(** The expressions [Input(name)] and [Output(name)]. *)
Definition new (cls : port_class) (name : option string)
  : World D -> outcome unit * St :=
  match cls with
  | Input => Input__init__ name
  | Output => Output__init__ name
  end.

(** [Port.close], lines 240-257. *)
Definition close : M St unit :=
  closed <- self_get (@Port.closed P) ;;
  if negb closed then
    s <- self_get (@Port._stream P) ;;
    rv <- in_world (pm_call (C_Pm_Close s) (fun d => Pm_Close d s)) ;;
    in_world (_check_error rv) ;;
    self_set (Port.set_closed true) ;;
    set_device_opened false
  else ret tt.

(** Lines 259-266. *)
Definition __del__ : M St unit := close.
Definition __enter__ : M St unit := ret tt.
Definition __exit__ : M St bool := ret false.

(** [with port: body]: [__enter__], the body, then [__exit__] whether the
    body returned or raised; a raise goes on unless [__exit__] returned a
    true value. *)
Definition with_ (body : M St unit) : M St unit :=
  __enter__ ;;
  fun st =>
    match body st with
    | (Return _, st1) => (__exit__ ;; ret tt) st1
    | (Raise e, st1) =>
        (suppress <- __exit__ ;; if suppress : bool then ret tt else raise e) st1
    | (OutOfFuel, st1) => (OutOfFuel, st1)
    end.

(** [self._parser.feed_byte(byte)]. *)
Definition parser_feed_byte (byte : Z) : M St unit :=
  p <- self_get (@Port._parser P) ;;
  match p with
  | None => raise (AttributeError "_parser")
  | Some p => self_set (Port.set_parser (Some (feed_byte p byte)))
  end.

(** Lines 323-326, [n] rounds. *)
Fixpoint feed_packed (n : nat) (packed_message : Z) : M St unit :=
  match n with
  | O => ret tt
  | S n' =>
      let byte := Z.land packed_message 255 in
      parser_feed_byte byte ;;
      feed_packed n' (Z.shiftr packed_message 8)
  end.

Definition out_of_fuel {S A} : M S A := fun s => (OutOfFuel, s).

(** The [while] loop of lines 307-326; [fuel] bounds the number of tests of
    the loop condition. *)
Fixpoint poll_loop (fuel : nat) (read_buffer : PmEvent) : M St unit :=
  match fuel with
  | O => out_of_fuel
  | S fuel' =>
      s <- self_get (@Port._stream P) ;;
      pending <- in_world (pm_call (C_Pm_Poll s) (fun d => Pm_Poll d s)) ;;
      if truthy pending then
        let length := 1 in
        r <- in_world (pm_call (C_Pm_Read s length)
                         (fun d => let '(n, b, d') := Pm_Read d s read_buffer length
                                   in ((n, b), d'))) ;;
        let num_events := fst r in
        let read_buffer' := snd r in
        in_world (_check_error num_events) ;;
        let event := read_buffer' in
        let packed_message := Z.land (message event) 4294967295 in
        feed_packed 4 packed_message ;;
        poll_loop fuel' read_buffer'
      else ret tt
  end.

(** [Input.poll], lines 287-329; [None] is the bare [return]. *)
Definition poll (fuel : nat) : M St (option Z) :=
  closed <- self_get (@Port.closed P) ;;
  if closed then ret None
  else
    poll_loop fuel {| message := 0; timestamp := 0 |} ;;
    p <- self_get (@Port._parser P) ;;
    match p with
    | None => raise (AttributeError "_parser")
    | Some p => ret (Some (Z.of_nat (List.length (_parsed_messages p))))
    end.

(** [Output.send], lines 379-399.  [bytes(message.bin())] raises
    [ValueError] when a value is not in [range(0, 256)]. *)
Definition send (message : Message.t) : M St unit :=
  closed <- self_get (@Port.closed P) ;;
  if closed then raise ValueError_send_on_closed_port
  else if (Message.type message =? "sysex")%string then
    if forallb byte_value (Message.bin message) then
      let string := Message.bin message in
      let timestamp := 0 in
      s <- self_get (@Port._stream P) ;;
      rv <- in_world (pm_call (C_Pm_WriteSysEx s timestamp string)
                        (fun d => Pm_WriteSysEx d s timestamp string)) ;;
      in_world (_check_error rv)
    else raise ValueError_bytes_out_of_range
  else
    let packed_message := packed_message_of (Message.bytes message) in
    let timestamp := 0 in
    s <- self_get (@Port._stream P) ;;
    rv <- in_world (pm_call (C_Pm_WriteShort s timestamp packed_message)
                      (fun d => Pm_WriteShort d s timestamp packed_message)) ;;
    in_world (_check_error rv).

(** ** A client of the module

    The public operations, run one after the other by a caller that keeps the
    ports it has constructed and goes on after an exception. *)

Inductive op : Type :=
| Op_initialize
| Op_terminate
| Op_get_devices
| Op_get_input_names
| Op_get_output_names
| Op_Input (name : option string)
| Op_Output (name : option string)
| Op_close (i : nat)
| Op_del (i : nat)
| Op_with (i : nat)
| Op_poll (i : nat) (fuel : nat)
| Op_send (i : nat) (message : Message.t).

Record Session : Type := {
  world : World D;
  ports : list (Port.t P)
}.

Fixpoint update_nth {A} (i : nat) (x : A) (l : list A) : list A :=
  match l, i with
  | [], _ => []
  | _ :: l', O => x :: l'
  | y :: l', S i' => y :: update_nth i' x l'
  end.

(** A function of the module. *)
Definition run_function {A} (m : M (World D) A) (s : Session) : Session :=
  {| world := snd (m (world s)); ports := ports s |}.

(** A constructor: the port is kept when the constructor returns. *)
Definition run_constructor (c : World D -> outcome unit * St) (s : Session)
  : Session :=
  match c (world s) with
  | (Return _, (self, w)) => {| world := w; ports := ports s ++ [self] |}
  | (_, (_, w)) => {| world := w; ports := ports s |}
  end.

(** A method of the [i]-th port. *)
Definition run_method {A} (i : nat) (m : M St A) (s : Session) : Session :=
  match nth_error (ports s) i with
  | None => s
  | Some self =>
      let st := snd (m (self, world s)) in
      {| world := snd st; ports := update_nth i (fst st) (ports s) |}
  end.

Definition run_op (o : op) : Session -> Session :=
  match o with
  | Op_initialize => run_function _initialize
  | Op_terminate => run_function _terminate
  | Op_get_devices => run_function get_devices
  | Op_get_input_names => run_function get_input_names
  | Op_get_output_names => run_function get_output_names
  | Op_Input name => run_constructor (Input__init__ name)
  | Op_Output name => run_constructor (Output__init__ name)
  | Op_close i => run_method i close
  | Op_del i => run_method i __del__
  | Op_with i => run_method i (with_ (ret tt))
  | Op_poll i fuel => run_method i (poll fuel)
  | Op_send i message => run_method i (send message)
  end.

Definition run (ops : list op) (s : Session) : Session :=
  fold_left (fun s o => run_op o s) ops s.

(** The module as imported: [_initialized = False], no call made yet. *)
Definition start (d : D) : Session :=
  {| world := {| _initialized := false; lib := d; calls := [] |}; ports := [] |}.
End Ports.

(** ** A scripted driver and a small parser, to run the module on *)

Module Mock.
Record driver : Type := {
  table : list (option PmDeviceInfo.t);
  default_input : Z;
  default_output : Z;
  open_code : Z;
  close_code : Z;
  write_code : Z;
  pending : list PmEvent
}.

Definition with_pending (q : list PmEvent) (d : driver) : driver :=
  {| table := table d; default_input := default_input d;
     default_output := default_output d; open_code := open_code d;
     close_code := close_code d; write_code := write_code d; pending := q |}.

Definition device_info (d : driver) (device_id : Z) : option PmDeviceInfo.t :=
  if device_id <? 0 then None
  else match nth_error (table d) (Z.to_nat device_id) with
       | Some (Some info) => Some info
       | _ => None
       end.

#[global] Instance scripted : PmLib driver := {
  Pm_Initialize d := d;
  Pm_Terminate d := d;
  Pm_GetErrorText _ code :=
    if code =? -9999 then "PortMidi: `Host error'" else "PortMidi: `Invalid device ID'";
  Pm_CountDevices d := Z.of_nat (List.length (table d));
  Pm_GetDeviceInfo := device_info;
  Pm_GetDefaultInputDeviceID := default_input;
  Pm_GetDefaultOutputDeviceID := default_output;
  Pm_OpenInput d s _ _ := (open_code d, if open_code d <? 0 then s else 1, d);
  Pm_OpenOutput d s _ _ _ := (open_code d, if open_code d <? 0 then s else 2, d);
  Pm_Close d _ := (close_code d, d);
  Pm_Poll d _ := (match pending d with [] => 0 | _ => 1 end, d);
  Pm_Read d _ buffer _ :=
    match pending d with
    | [] => (0, buffer, d)
    | e :: q => (1, e, with_pending q d)
    end;
  Pm_WriteShort d _ _ _ := (write_code d, d);
  Pm_WriteSysEx d _ _ _ := (write_code d, d)
}.

(** A parser that completes a one-byte message at every status byte. *)
#[global] Instance status_parser : ParserOps (list Message.t) := {
  Parser := [];
  feed_byte p byte :=
    if 128 <=? byte then (p ++ [Message.make "status" [byte] [byte]])%list else p;
  _parsed_messages p := p
}.

Definition info (name : string) (is_input is_output opened : Z) : PmDeviceInfo.t :=
  PmDeviceInfo.make (Some "ALSA") (Some name) is_input is_output opened.

Definition make (table : list (option PmDeviceInfo.t)) (open_code : Z)
           (pending : list PmEvent) : driver :=
  {| table := table; default_input := 0; default_output := 1;
     open_code := open_code; close_code := 0; write_code := 0;
     pending := pending |}.

Definition fresh (d : driver) : World driver :=
  {| _initialized := false; lib := d; calls := [] |}.
End Mock.

(** ** Vocabulary of the properties *)

(** A byte value. *)
Definition is_byte (b : Z) : Prop := 0 <= b <= 255.

(** The two write calls. *)
Definition is_write (c : call) : bool :=
  match c with
  | C_Pm_WriteShort _ _ _ | C_Pm_WriteSysEx _ _ _ => true
  | _ => false
  end.

(** The test of lines 197-202: the device carries the flag of the other
    type. *)
Definition wrong_type (this_is_input : bool) (device : DeviceInfo.t) : bool :=
  if this_is_input
  then truthy (DeviceInfo.is_output device)
  else truthy (DeviceInfo.is_input device).

(** The specification's reading of the direction test: the device carries
    the flag of the requested direction. *)
Definition direction_matches (this_is_input : bool) (device : DeviceInfo.t)
  : bool :=
  if this_is_input
  then truthy (DeviceInfo.is_input device)
  else truthy (DeviceInfo.is_output device).

(** The open-by-name scan in the specification's words: the candidate is the
    first record of the requested direction with the requested name;
    [PortAlreadyOpen] if it is opened, [UnknownPort] if there is none. *)
Definition open_by_name_spec (this_is_input : bool) (name : string)
           (devices : list DeviceInfo.t) : outcome DeviceInfo.t :=
  match find (fun device => direction_matches this_is_input device
                            && (DeviceInfo.name device =? name)%string)
             devices with
  | None => Raise (IOError_unknown_port name)
  | Some candidate =>
      if DeviceInfo.opened candidate
      then Raise (IOError_port_already_opened name)
      else Return candidate
  end.

(** A device that is an input or an output, not both and not neither. *)
Definition one_direction (device : DeviceInfo.t) : Prop :=
  truthy (DeviceInfo.is_input device)
  = negb (truthy (DeviceInfo.is_output device)).

(** A device with both flags, as a registry can hold it. *)
Definition duplex (opened : bool) : DeviceInfo.t :=
  DeviceInfo.make 0 "ALSA" "A" 1 1 opened.

(** The order of names: [a <= b] as Python compares strings. *)
Definition name_le (a b : string) : Prop := String.leb a b = true.

(** [names] is [l] put in ascending order: the same entries, each as many
    times, sorted. *)
Definition sorting_of (l names : list string) : Prop :=
  Permutation l names /\ StronglySorted name_le names.

Section Pending.
Context {D : Type} {pm : PmLib D}.

(** [hands_out s d buffer events d']: asked in turn whether an event is
    pending on [s] and for one event, the driver in state [d] says yes and
    delivers each of [events] in order, then says no and is in state [d'].
    [buffer] is the read buffer before the first read. *)
Inductive hands_out (s : stream)
  : D -> PmEvent -> list PmEvent -> D -> Prop :=
| hands_out_nothing (d d' : D) (buffer : PmEvent) (pending : Z) :
    Pm_Poll d s = (pending, d') ->
    truthy pending = false ->
    hands_out s d buffer [] d'
| hands_out_event (d d1 d2 d' : D) (buffer event : PmEvent)
                  (pending num_events : Z) (events : list PmEvent) :
    Pm_Poll d s = (pending, d1) ->
    truthy pending = true ->
    Pm_Read d1 s buffer 1 = (num_events, event, d2) ->
    0 <= num_events ->
    hands_out s d2 event events d' ->
    hands_out s d buffer (event :: events) d'.
End Pending.

(** The driver calls of a [poll] that finds [n] events: a test and a read of
    one event for each, and the test that ends the loop. *)
Fixpoint poll_calls (s : stream) (n : nat) : list call :=
  match n with
  | O => [C_Pm_Poll s]
  | S n' => C_Pm_Poll s :: C_Pm_Read s 1 :: poll_calls s n'
  end.

(** The driver has not been initialized: the flag is false and no
    [Pm_Initialize] has been called. *)
Definition uninitialized {D : Type} (w : World D) : Prop :=
  _initialized w = false /\ ~ In C_Pm_Initialize (calls w).

(** The same property, of the world of a method. *)
Definition method_uninitialized {D P : Type} (st : Port.t P * World D) : Prop :=
  uninitialized (snd st).

(** [m] keeps the property [I] of the state, whatever its outcome. *)
Definition keeps {S A : Type} (I : S -> Prop) (m : M S A) : Prop :=
  forall s, I s -> I (snd (m s)).

(** ** [Input.receive] and iteration *)

(** The parser's [get_message()]: the message returned, [None] when it has
    none, and the parser after the call. *)
Class ParserQueue (P : Type) {ops : ParserOps P} : Type := {
  get_message : P -> option Message.t * P
}.
Arguments ParserQueue P {ops}.

Section Receive.
Context {D : Type} {pm : PmLib D} {P : Type} {ops : ParserOps P}
        {queue : ParserQueue P}.

(** [self._parser.get_message()]. *)
Definition parser_get_message : M (Port.t P * World D) (option Message.t) :=
  p <- self_get (@Port._parser P) ;;
  match p with
  | None => raise (AttributeError "_parser")
  | Some p =>
      let (message, p') := get_message p in
      self_set (Port.set_parser (Some p')) ;;
      ret message
  end.

(** The truth value of what [poll] returns: [None] and 0 are false. *)
Definition poll_truthy (n : option Z) : bool :=
  match n with
  | None => false
  | Some n => truthy n
  end.

(** The [while 1] loop of lines 352-358; [fuel] bounds the number of rounds
    and the loop of each [poll].  [time.sleep] changes nothing here. *)
Fixpoint receive_wait (fuel rounds : nat)
  : M (Port.t P * World D) (option Message.t) :=
  match rounds with
  | O => out_of_fuel
  | S rounds' =>
      n <- poll fuel ;;
      if poll_truthy n then parser_get_message
      else receive_wait fuel rounds'
  end.

(** [Input.receive], lines 331-358.  A message object is true, so
    [if message] tests that [get_message] returned one. *)
Definition receive (fuel : nat) : M (Port.t P * World D) (option Message.t) :=
  message <- parser_get_message ;;
  match message with
  | Some m => ret (Some m)
  | None => receive_wait fuel fuel
  end.

(** The first [n] values of [Input.__iter__], lines 360-363. *)
Fixpoint iter_take (fuel n : nat)
  : M (Port.t P * World D) (list (option Message.t)) :=
  match n with
  | O => ret []
  | S n' =>
      m <- receive fuel ;;
      ms <- iter_take fuel n' ;;
      ret (m :: ms)
  end.

(** The parser hands out its messages oldest first: [get_message] takes the
    head of [_parsed_messages], and returns [None] on an empty list, leaving
    the parser as it is. *)
Definition pops_oldest : Prop :=
  forall p : P,
    match _parsed_messages p with
    | [] => get_message p = (None, p)
    | m :: rest =>
        exists p', get_message p = (Some m, p') /\ _parsed_messages p' = rest
    end.
End Receive.

(** The small parser's queue. *)
#[global] Instance status_queue : ParserQueue (list Message.t) := {
  get_message p :=
    match p with
    | [] => (None, [])
    | m :: rest => (Some m, rest)
    end
}.

(** ** A driver that always has an event pending *)

Module Flood.
(** The state is the message word of the event it delivers. *)
Definition driver : Type := Z.

#[global] Instance endless : PmLib driver := {
  Pm_Initialize d := d;
  Pm_Terminate d := d;
  Pm_GetErrorText _ _ := "PortMidi: `Host error'";
  Pm_CountDevices _ := 0;
  Pm_GetDeviceInfo _ _ := None;
  Pm_GetDefaultInputDeviceID _ := -1;
  Pm_GetDefaultOutputDeviceID _ := -1;
  Pm_OpenInput d s _ _ := (0, s, d);
  Pm_OpenOutput d s _ _ _ := (0, s, d);
  Pm_Close d _ := (0, d);
  Pm_Poll d _ := (1, d);
  Pm_Read d _ _ _ := (1, {| message := d; timestamp := 0 |}, d);
  Pm_WriteShort d _ _ _ := (0, d);
  Pm_WriteSysEx d _ _ _ := (0, d)
}.
End Flood.

(** ** More vocabulary *)

(** The [opened] flag of the bound device mirrors the state of the port. *)
Definition mirrors {P : Type} (self : Port.t P) : Prop :=
  exists device,
    Port.device self = Some device
    /\ DeviceInfo.opened device = negb (Port.closed self).

(** The driver is neither initialized nor terminated so far. *)
Definition untouched {D : Type} (w : World D) : Prop :=
  _initialized w = false
  /\ ~ In C_Pm_Initialize (calls w)
  /\ ~ In C_Pm_Terminate (calls w).

Section RegistryVocabulary.
Context {D : Type} {pm : PmLib D}.

(** The world after the queries [cs]: only the record of calls grows. *)
Definition after_queries (cs : list call) (w : World D) : World D :=
  {| _initialized := _initialized w; lib := lib w;
     calls := (calls w ++ cs)%list |}.

(** Device [i] is in the driver's table and [device] is its record. *)
Definition describes (w : World D) (i : Z) (device : DeviceInfo.t) : Prop :=
  exists info,
    Pm_GetDeviceInfo (lib w) i = Some info
    /\ device_of_info i info = Return device.

(** What [DeviceInfo(i)] gives in the world [w]. *)
Definition device_result (w : World D) (i : Z) : outcome DeviceInfo.t :=
  match Pm_GetDeviceInfo (lib w) i with
  | None => Raise (IOError_device_not_found i)
  | Some info => device_of_info i info
  end.
End RegistryVocabulary.

Section ConstructorVocabulary.
Context {P : Type} {parser : ParserOps P}.

(** The parser a new port of class [cls] ends with. *)
Definition parser_of (cls : port_class) : option P :=
  match cls with Input => Some Parser | Output => None end.

(** The attributes of a new object after the first four assignments. *)
Definition blank (cls : port_class) (name : option string) : Port.t P :=
  Port.make cls name true 0 None None.

(** The port as a constructor leaves it when it returns: open, on the stream
    [s], bound to [device] with its flag set. *)
Definition opened_port (cls : port_class) (s : stream) (device : DeviceInfo.t)
  : Port.t P :=
  Port.make cls (Some (DeviceInfo.name device)) false s
            (Some (DeviceInfo.set_opened true device)) (parser_of cls).
End ConstructorVocabulary.

(** Two states of a port that differ at most in the parser: the same class,
    name, state, stream and device. *)
Definition same_binding {P : Type} (self self' : Port.t P) : Prop :=
  Port.__class__ self' = Port.__class__ self
  /\ Port.name self' = Port.name self
  /\ Port.closed self' = Port.closed self
  /\ Port._stream self' = Port._stream self
  /\ Port.device self' = Port.device self.

Section Delivery.
Context {D : Type} {pm : PmLib D}.

(** [delivers s d buffer events d' buffer']: asked in turn whether an event
    is pending on [s] and for one event, the driver in state [d] says yes and
    delivers each of [events] in order; it is then in state [d'] and the read
    buffer holds [buffer']. *)
Inductive delivers (s : stream)
  : D -> PmEvent -> list PmEvent -> D -> PmEvent -> Prop :=
| delivers_none (d : D) (buffer : PmEvent) :
    delivers s d buffer [] d buffer
| delivers_event (d d1 d2 d' : D) (buffer event buffer' : PmEvent)
                 (pending num_events : Z) (events : list PmEvent) :
    Pm_Poll d s = (pending, d1) ->
    truthy pending = true ->
    Pm_Read d1 s buffer 1 = (num_events, event, d2) ->
    0 <= num_events ->
    delivers s d2 event events d' buffer' ->
    delivers s d buffer (event :: events) d' buffer'.
End Delivery.

(** The driver calls for [n] events read: a test and a read of one event for
    each. *)
Fixpoint read_calls (s : stream) (n : nat) : list call :=
  match n with
  | O => []
  | S n' => C_Pm_Poll s :: C_Pm_Read s 1 :: read_calls s n'
  end.

(** ** A driver whose reads can fail *)

Module Faulty.
(** The state is the queue of reads to come: the code each returns and the
    event it delivers. *)
Definition driver : Type := list (Z * PmEvent).

#[global] Instance failing : PmLib driver := {
  Pm_Initialize d := d;
  Pm_Terminate d := d;
  Pm_GetErrorText _ _ := "PortMidi: `Buffer overflow'";
  Pm_CountDevices _ := 0;
  Pm_GetDeviceInfo _ _ := None;
  Pm_GetDefaultInputDeviceID _ := -1;
  Pm_GetDefaultOutputDeviceID _ := -1;
  Pm_OpenInput d s _ _ := (0, s, d);
  Pm_OpenOutput d s _ _ _ := (0, s, d);
  Pm_Close d _ := (0, d);
  Pm_Poll d _ := (match d with [] => 0 | _ => 1 end, d);
  Pm_Read d _ buffer _ :=
    match d with
    | [] => (0, buffer, d)
    | (code, event) :: rest =>
        (code, if code <? 0 then buffer else event, rest)
    end;
  Pm_WriteShort d _ _ _ := (0, d);
  Pm_WriteSysEx d _ _ _ := (0, d)
}.
End Faulty.

(** A sysex message of four bytes. *)
Definition sysex_message : Message.t :=
  Message.make "sysex" [240; 1; 2; 247] [240; 1; 2; 247].

(** The same, of the world of a method. *)
Definition method_untouched {D P : Type} (st : Port.t P * World D) : Prop :=
  untouched (snd st).

Section OpenVocabulary.
Context {D : Type} {pm : PmLib D}.

(** The driver's default device for a class of port, and the call that asks
    for it (lines 178-181). *)
Definition default_id (cls : port_class) (d : D) : Z :=
  match cls with
  | Input => Pm_GetDefaultInputDeviceID d
  | Output => Pm_GetDefaultOutputDeviceID d
  end.

Definition default_id_call (cls : port_class) : call :=
  match cls with
  | Input => C_Pm_GetDefaultInputDeviceID
  | Output => C_Pm_GetDefaultOutputDeviceID
  end.

(** The stream-open call of a class of port, with the arguments of lines
    220-235, and its record. *)
Definition open_on (cls : port_class) (d : D) (s : stream) (device_id : Z)
  : Z * stream * D :=
  match cls with
  | Input => Pm_OpenInput d s device_id 1000
  | Output => Pm_OpenOutput d s device_id 0 0
  end.

Definition open_call (cls : port_class) (device_id : Z) : call :=
  match cls with
  | Input => C_Pm_OpenInput device_id 1000
  | Output => C_Pm_OpenOutput device_id 0 0
  end.
End OpenVocabulary.

(** ** Fixtures on the scripted driver *)

(** An input port and an output port opened on the scripted driver. *)
Definition mock_table : list (option PmDeviceInfo.t) :=
  [Some (Mock.info "A" 1 0 0); Some (Mock.info "B" 0 1 0)].

Definition open_input : Port.t (list Message.t) :=
  Port.make Input (Some "A") false 1
    (Some (DeviceInfo.make 0 "ALSA" "A" 1 0 true)) (Some []).

Definition open_output : Port.t (list Message.t) :=
  Port.make Output (Some "B") false 2
    (Some (DeviceInfo.make 1 "ALSA" "B" 0 1 true)) None.

(** A message of five bytes that is not a sysex message. *)
Definition long_message : Message.t :=
  Message.make "note_on" [144; 64; 127; 1; 2] [144; 64; 127; 1; 2].

(** The default input device is reported as opened, and opening it fails. *)
Definition busy_default : Mock.driver :=
  Mock.make [Some (Mock.info "A" 1 0 1)] (-9999) [].

(** ** Tactics *)

Ltac run_monad :=
  unfold bind, ret, raise, gets, modify, self_get, self_set, in_world,
    lift_outcome, pm_query, pm_call; cbn [fst snd].


(** * Properties *)

Unset Implicit Arguments.

(** ** The codec *)

Lemma packed_message_of_cons (b : Z) (bs : list Z) :
  packed_message_of (b :: bs) = Z.lor (Z.shiftl (packed_message_of bs) 8) b.
Proof.
  unfold packed_message_of. simpl rev. now rewrite fold_left_app.
Qed.

Lemma shifted_lor_byte (w b : Z) :
  is_byte b -> Z.lor (Z.shiftl w 8) b = w * 256 + b.
Proof.
  intros Hb.
  assert (Hdisj : Z.land (Z.shiftl w 8) b = 0).
  { apply Z.bits_inj'. intros n Hn.
    rewrite Z.land_spec, Z.bits_0.
    destruct (Z_lt_ge_dec n 8) as [Hlt | Hge].
    - rewrite Z.shiftl_spec_low by lia. reflexivity.
    - replace (Z.testbit b n) with false; [apply andb_false_r|].
      symmetry. destruct (Z.eq_dec b 0) as [-> | Hnz]; [apply Z.bits_0|].
      apply Z.bits_above_log2; [unfold is_byte in Hb; lia|].
      assert (Z.log2 b < 8); [|lia].
      apply Z.log2_lt_pow2; unfold is_byte in Hb; lia. }
  rewrite <- Z.lxor_lor by exact Hdisj.
  rewrite <- Z.add_nocarry_lxor by exact Hdisj.
  rewrite Z.shiftl_mul_pow2 by lia. reflexivity.
Qed.

Lemma packed_message_of_bounds (bs : list Z) :
  Forall is_byte bs ->
  0 <= packed_message_of bs < 256 ^ Z.of_nat (List.length bs).
Proof.
  induction 1 as [| b bs Hb _ IH].
  - cbn. lia.
  - rewrite packed_message_of_cons, shifted_lor_byte by exact Hb.
    replace (Z.of_nat (List.length (b :: bs))) with (Z.succ (Z.of_nat (List.length bs)))
      by (cbn [List.length]; lia).
    rewrite Z.pow_succ_r by lia. unfold is_byte in Hb. nia.
Qed.

Lemma unpack_packed (bs : list Z) :
  Forall is_byte bs -> unpack (List.length bs) (packed_message_of bs) = bs.
Proof.
  induction 1 as [| b bs Hb _ IH]; [reflexivity|].
  cbn [List.length unpack].
  rewrite packed_message_of_cons, shifted_lor_byte by exact Hb.
  change 255 with (Z.ones 8).
  rewrite Z.land_ones, Z.shiftr_div_pow2 by lia.
  change (2 ^ 8) with 256. unfold is_byte in Hb.
  rewrite Z.add_comm, Z.mod_add, Z.mod_small by lia.
  rewrite Z.add_comm, Z.div_add_l, Z.div_small by lia.
  rewrite Z.add_0_r, IH. reflexivity.
Qed.

Lemma firstn_unpack (k n : nat) (w : Z) :
  (k <= n)%nat -> firstn k (unpack n w) = unpack k w.
Proof.
  revert n w. induction k as [| k IH]; intros n w Hk; [reflexivity|].
  destruct n as [| n]; [lia|].
  cbn [unpack firstn]. f_equal. apply IH. lia.
Qed.

(** The loop of [unpack] yields byte [i] as [(value >> (8*i)) & 0xFF]. *)
Lemma unpack_4 (w : Z) :
  unpack 4 w = map (fun i => Z.land (Z.shiftr w (8 * i)) 255) [0; 1; 2; 3].
Proof.
  cbn [unpack map]. rewrite !Z.shiftr_shiftr by lia. cbn [Z.mul Z.add Pos.mul Pos.add].
  rewrite Z.shiftr_0_r. reflexivity.
Qed.

(** C3. For every sequence of 1 to 4 bytes (each in 0..255), the word that
    [Output.send] packs is decoded by the loop of [Input.poll] into 4 bytes,
    byte [i] being [(word >> (8*i)) & 0xFF], and the first [len(sequence)] of
    them are the sequence. *)
Theorem codec_round_trip (bs : list Z) (ts : Z) :
  (1 <= List.length bs <= 4)%nat ->
  Forall is_byte bs ->
  let word := packed_message_of bs in
  let decoded := message_bytes {| message := word; timestamp := ts |} in
  decoded = map (fun i => Z.land (Z.shiftr word (8 * i)) 255) [0; 1; 2; 3]
  /\ firstn (List.length bs) decoded = bs.
Proof.
  intros Hlen Hbytes word decoded.
  assert (Hmask : Z.land word 4294967295 = word).
  { change 4294967295 with (Z.ones 32). rewrite Z.land_ones by lia.
    apply Z.mod_small.
    pose proof (packed_message_of_bounds bs Hbytes) as Hb. fold word in Hb.
    assert (256 ^ Z.of_nat (List.length bs) <= 256 ^ 4)
      by (apply Z.pow_le_mono_r; lia).
    change (256 ^ 4) with (2 ^ 32) in *. lia. }
  subst decoded. unfold message_bytes. cbn [message]. rewrite Hmask. split.
  - apply unpack_4.
  - rewrite firstn_unpack by lia. apply unpack_packed. exact Hbytes.
Qed.

Lemma codec_round_trip_witness :
  let bs := [144; 64; 127] in
  message_bytes {| message := packed_message_of bs; timestamp := 0 |}
    = [144; 64; 127; 0]
  /\ firstn (List.length bs)
            (message_bytes {| message := packed_message_of bs; timestamp := 0 |})
     = bs.
Proof.
  split.
  - reflexivity.
  - apply (codec_round_trip [144; 64; 127] 0).
    + cbn. lia.
    + repeat constructor; unfold is_byte; lia.
Defined.

(** ** Closed ports, [send], and the [with] statement *)

Section PortProperties.
Context {D : Type} {pm : PmLib D} {P : Type} {parser : ParserOps P}.

Implicit Types (self : Port.t P) (w : World D).

(** C8. [send] on a closed port raises the [ValueError] of line 382 and leaves
    the port and the world as they were: the record of driver calls is
    unchanged, so neither [Pm_WriteShort] nor [Pm_WriteSysEx] is reached. *)
Theorem send_on_closed_port (message : Message.t) self w :
  Port.closed self = true ->
  send message (self, w) = (Raise ValueError_send_on_closed_port, (self, w)).
Proof.
  intros Hclosed. unfold send. run_monad. rewrite Hclosed. reflexivity.
Qed.

(** C9. [poll] on a closed port returns [None] at once, for every bound on
    the loop, and leaves the port and the world as they were: no driver call
    is recorded. *)
Theorem poll_on_closed_port (fuel : nat) self w :
  Port.closed self = true ->
  poll fuel (self, w) = (Return None, (self, w)).
Proof.
  intros Hclosed. unfold poll. run_monad. rewrite Hclosed. reflexivity.
Qed.

(** What [_check_error] does after a driver call that returned [rv]. *)
Lemma check_error_run (rv : Z) w :
  _check_error rv w =
  if rv <? 0
  then (Raise (IOError_driver (Pm_GetErrorText (lib w) rv)),
        log_call (C_Pm_GetErrorText rv) (lib w) w)
  else (Return tt, w).
Proof.
  unfold _check_error. destruct (rv <? 0); reflexivity.
Qed.

(** C4, as the code has it. [send] has no test on the number of bytes: on an
    open port an ordinary message of any length goes to [Pm_WriteShort], once,
    with timestamp 0 and the fold of all its bytes, and an error is raised
    only on a negative return of the driver.  Nothing is cut off: when the
    bytes are in 0..255 the word holds every one of them. *)
Theorem send_ordinary_message (message : Message.t) self w :
  Port.closed self = false ->
  Message.type message <> "sysex" ->
  let word := packed_message_of (Message.bytes message) in
  let '(rv, d) := Pm_WriteShort (lib w) (Port._stream self) 0 word in
  send message (self, w) =
    in_world (_check_error rv)
      (self, log_call (C_Pm_WriteShort (Port._stream self) 0 word) d w)
  /\ (Forall is_byte (Message.bytes message) ->
      unpack (List.length (Message.bytes message)) word = Message.bytes message).
Proof.
  intros Hopen Hordinary word.
  destruct (Pm_WriteShort (lib w) (Port._stream self) 0 word) as [rv d] eqn:Hwrite.
  split.
  - unfold send. run_monad. rewrite Hopen.
    destruct (String.eqb_spec (Message.type message) "sysex") as [Heq | _];
      [contradiction|].
    fold word. cbn [fst snd]. rewrite Hwrite. reflexivity.
  - apply unpack_packed.
Qed.

(** [__exit__] returns [False] and touches nothing. *)
Lemma exit_returns_false (st : Port.t P * World D) :
  __exit__ st = (Return false, st).
Proof. reflexivity. Qed.

(** A [with] block ends in the state its body ends in. *)
Lemma with_state (body : M (Port.t P * World D) unit)
      (st : Port.t P * World D) :
  snd (with_ body st) = snd (body st).
Proof.
  unfold with_, __enter__, __exit__. run_monad.
  destruct (body st) as [[[] | e |] st1]; reflexivity.
Qed.
End PortProperties.

Example open_input_constructed :
  fst (snd (Input__init__ (Some "A") (Mock.fresh (Mock.make mock_table 0 []))))
  = open_input.
Proof. reflexivity. Qed.

Example open_output_constructed :
  fst (snd (Output__init__ (P := list Message.t) (Some "B")
              (Mock.fresh (Mock.make mock_table 0 []))))
  = open_output.
Proof. reflexivity. Qed.

Lemma send_on_closed_port_witness :
  send (Message.make "note_on" [144; 64; 127] [144; 64; 127])
       (Port.set_closed true open_output, Mock.fresh (Mock.make mock_table 0 []))
  = (Raise ValueError_send_on_closed_port,
     (Port.set_closed true open_output, Mock.fresh (Mock.make mock_table 0 []))).
Proof. apply send_on_closed_port. reflexivity. Defined.

Lemma poll_on_closed_port_witness :
  poll 5 (Port.set_closed true open_input,
          Mock.fresh (Mock.make mock_table 0 [{| message := 144; timestamp := 0 |}]))
  = (Return None,
     (Port.set_closed true open_input,
      Mock.fresh (Mock.make mock_table 0 [{| message := 144; timestamp := 0 |}]))).
Proof. apply poll_on_closed_port. reflexivity. Defined.

(** C4 as stated fails: the five bytes are packed into a word above 32 bits
    and written with [Pm_WriteShort]; nothing is raised. *)
Lemma send_long_message_not_rejected :
  let st := (open_output, Mock.fresh (Mock.make mock_table 0 [])) in
  (4 < List.length (Message.bytes long_message))%nat
  /\ Message.type long_message <> "sysex"
  /\ ~ (exists e, fst (send long_message st) = Raise e
                  /\ filter is_write (calls (snd (snd (send long_message st)))) = []).
Proof.
  cbn zeta. split; [cbn; lia|]. split; [discriminate|].
  intros [e [Hraise _]]. vm_compute in Hraise. discriminate.
Qed.

Example send_long_message_run :
  send long_message (open_output, Mock.fresh (Mock.make mock_table 0 []))
  = (Return tt,
     (open_output,
      {| _initialized := false; lib := Mock.make mock_table 0 [];
         calls := [C_Pm_WriteShort 2 0 8615051408] |}))
  /\ 2 ^ 32 <= 8615051408.
Proof. split; [reflexivity | lia]. Qed.

Lemma send_ordinary_message_witness :
  send long_message (open_output, Mock.fresh (Mock.make mock_table 0 []))
  = (Return tt,
     (open_output,
      log_call (C_Pm_WriteShort 2 0 (packed_message_of [144; 64; 127; 1; 2]))
               (Mock.make mock_table 0 [])
               (Mock.fresh (Mock.make mock_table 0 []))))
  /\ unpack 5 (packed_message_of [144; 64; 127; 1; 2]) = [144; 64; 127; 1; 2].
Proof.
  pose proof (send_ordinary_message
                long_message open_output
                (Mock.fresh (Mock.make mock_table 0 []))
                eq_refl ltac:(discriminate)) as H.
  cbn in H. destruct H as [Hsend Hword]. split.
  - exact Hsend.
  - apply Hword. repeat constructor; unfold is_byte; lia.
Defined.

(** C1 on the code: leaving a [with] block, by return or by exception,
    leaves an open port open and records no [Pm_Close]; [__del__] on the
    same port does close it. *)
Theorem with_block_leaves_port_open :
  let st := (open_input, Mock.fresh (Mock.make mock_table 0 [])) in
  let returned := with_ (ret tt) st in
  let raised := with_ (raise (AttributeError "body")) st in
  returned = (Return tt, st)
  /\ raised = (Raise (AttributeError "body"), st)
  /\ Port.closed (fst st) = false
  /\ Port.closed (fst (snd (__del__ st))) = true
  /\ calls (snd (snd (__del__ st))) = [C_Pm_Close 1].
Proof. repeat split. Qed.

(** ** Opening a port *)

Section OpenProperties.
Context {D : Type} {pm : PmLib D} {P : Type} {parser : ParserOps P}.

Implicit Types (self : Port.t P) (w : World D).

Lemma initialize_returns w : fst (_initialize w) = Return tt.
Proof.
  unfold _initialize. run_monad. destruct (_initialized w); reflexivity.
Qed.

(** A device that the scan returns is not opened. *)
Lemma find_device_not_opened (this_is_input : bool) (name : string)
      (devices : list DeviceInfo.t) (device : DeviceInfo.t) :
  find_device this_is_input name devices = Return device ->
  DeviceInfo.opened device = false.
Proof.
  induction devices as [| d rest IH]; cbn; [discriminate|].
  destruct (negb (DeviceInfo.name d =? name)%string); [exact IH|].
  destruct (if this_is_input then _ else _); [exact IH|].
  destruct (DeviceInfo.opened d) eqn:Hopened; [discriminate|].
  intros [= <-]. exact Hopened.
Qed.

(** When [select_device] returns, the device is bound to the port, the port
    is as closed as before, and a device found by name is not opened. *)
Lemma select_device_returns (this_is_input : bool) (name : option string)
      self w (device : DeviceInfo.t) (st : Port.t P * World D) :
  select_device this_is_input name (self, w) = (Return device, st) ->
  Port.device (fst st) = Some device
  /\ Port.closed (fst st) = Port.closed self
  /\ Port.__class__ (fst st) = Port.__class__ self
  /\ (name <> None -> DeviceInfo.opened device = false).
Proof.
  unfold select_device. destruct name as [n |].
  - run_monad.
    destruct (get_devices w) as [[devices | e |] w1]; try discriminate.
    cbn [fst snd].
    destruct (find_device this_is_input n devices) as [dev | e |] eqn:Hfind;
      try discriminate.
    intros [= <- <-]. cbn. repeat split.
    intros _. eapply find_device_not_opened. exact Hfind.
  - destruct this_is_input; run_monad;
      (match goal with
       | |- context [if ?c then _ else _] => destruct c
       end; [discriminate|]);
      cbn [fst snd];
      (match goal with
       | |- context [DeviceInfo__init__ ?i ?x] =>
           destruct (DeviceInfo__init__ i x) as [[dev | e |] w1]
       end; try discriminate);
      intros [= <- <-]; cbn; repeat split; congruence.
Qed.

Lemma open_stream_returns (this_is_input : bool) (device_id : Z)
      (st : Port.t P * World D) :
  exists rv s w',
    open_stream this_is_input device_id st
    = (Return rv, (Port.set_stream s (fst st), w')).
Proof.
  unfold open_stream. destruct this_is_input.
  - destruct (Pm_OpenInput _ _ _ _) as [[rv s] d]. eauto.
  - destruct (Pm_OpenOutput _ _ _ _ _) as [[rv s] d]. eauto.
Qed.
End OpenProperties.

(** C5 as stated fails where it says the flag stays false: on the default
    device the constructor raises with the port bound to a device whose flag
    is true, as the driver reported it. *)
Lemma open_failure_flag_not_false :
  let r := new (P := list Message.t) Input None (Mock.fresh busy_default) in
  fst r = Raise (IOError_driver "PortMidi: `Host error'")
  /\ Port.closed (fst (snd r)) = true
  /\ ~ (option_map DeviceInfo.opened (Port.device (fst (snd r))) = Some false).
Proof.
  cbn zeta. repeat split. vm_compute. discriminate.
Qed.

(** ** The scan for a device by name *)

(** The scan is a search for the first device with the name that does not
    carry the flag of the other type. *)
Lemma find_device_find (this_is_input : bool) (name : string)
      (devices : list DeviceInfo.t) :
  find_device this_is_input name devices =
  match find (fun device => (DeviceInfo.name device =? name)%string
                            && negb (wrong_type this_is_input device))
             devices with
  | None => Raise (IOError_unknown_port name)
  | Some candidate =>
      if DeviceInfo.opened candidate
      then Raise (IOError_port_already_opened name)
      else Return candidate
  end.
Proof.
  induction devices as [| d rest IH]; [reflexivity|].
  cbn [find_device find]. fold (wrong_type this_is_input d).
  destruct (DeviceInfo.name d =? name)%string; cbn [negb andb]; [|exact IH].
  destruct (wrong_type this_is_input d); cbn [negb]; [exact IH|].
  reflexivity.
Qed.

Lemma one_direction_matches (this_is_input : bool) (device : DeviceInfo.t) :
  one_direction device ->
  negb (wrong_type this_is_input device) = direction_matches this_is_input device.
Proof.
  unfold one_direction, wrong_type, direction_matches.
  destruct this_is_input; intros ->; [|rewrite negb_involutive]; reflexivity.
Qed.

(** C2, as the code has it. The scan visits the devices in order and skips
    those with another name or with the flag of the other type set; the first
    device left is the candidate, [IOError('port already opened')] if it is
    opened and the device found otherwise, [IOError('unknown port')] if none
    is left.  So [IOError('unknown port')] is raised when every device with
    the name carries the flag of the other type, opened or not; and on a
    registry whose devices have exactly one of the two flags the scan is
    the one of the specification. *)
Theorem open_by_name_scan (this_is_input : bool) (name : string)
        (devices : list DeviceInfo.t) :
  find_device this_is_input name devices =
    match find (fun device => (DeviceInfo.name device =? name)%string
                              && negb (wrong_type this_is_input device))
               devices with
    | None => Raise (IOError_unknown_port name)
    | Some candidate =>
        if DeviceInfo.opened candidate
        then Raise (IOError_port_already_opened name)
        else Return candidate
    end
  /\ ((forall device, In device devices -> DeviceInfo.name device = name ->
                      wrong_type this_is_input device = true) ->
      find_device this_is_input name devices = Raise (IOError_unknown_port name))
  /\ (Forall one_direction devices ->
      find_device this_is_input name devices
      = open_by_name_spec this_is_input name devices).
Proof.
  split; [apply find_device_find|]. split.
  - intros Hwrong. rewrite find_device_find.
    destruct (find _ devices) as [c |] eqn:Hfind; [|reflexivity].
    apply find_some in Hfind. destruct Hfind as [Hin Hc].
    apply andb_true_iff in Hc. destruct Hc as [Hname Hright].
    apply String.eqb_eq in Hname.
    rewrite (Hwrong c Hin Hname) in Hright. discriminate.
  - intros Hone. rewrite find_device_find. unfold open_by_name_spec.
    replace (find (fun device => direction_matches this_is_input device
                                 && (DeviceInfo.name device =? name)%string)
                  devices)
      with (find (fun device => (DeviceInfo.name device =? name)%string
                                && negb (wrong_type this_is_input device))
                 devices); [reflexivity|].
    induction Hone as [| d rest Hd _ IH]; [reflexivity|].
    cbn [find]. rewrite (one_direction_matches this_is_input d Hd), IH.
    rewrite andb_comm. reflexivity.
Qed.

(** C2 as stated fails on a device with both flags: the specification's scan
    takes it as the candidate for an input port (and raises
    [PortAlreadyOpen] when it is opened); the code skips it and raises
    [UnknownPort]. *)
Lemma open_by_name_skips_duplex :
  find_device true "A" [duplex false] <> open_by_name_spec true "A" [duplex false]
  /\ find_device true "A" [duplex true] = Raise (IOError_unknown_port "A")
  /\ open_by_name_spec true "A" [duplex true]
     = Raise (IOError_port_already_opened "A")
  /\ direction_matches true (duplex true) = true.
Proof. repeat split. discriminate. Qed.

Lemma open_by_name_scan_witness :
  let devices :=
    [DeviceInfo.make 0 "ALSA" "A" 0 1 true;
     DeviceInfo.make 1 "ALSA" "B" 1 0 false;
     DeviceInfo.make 2 "ALSA" "B" 1 0 true] in
  find_device true "A" devices = Raise (IOError_unknown_port "A")
  /\ find_device true "B" devices
     = open_by_name_spec true "B" devices.
Proof.
  intros devices.
  destruct (open_by_name_scan true "A" devices) as (_ & Hunknown & _).
  destruct (open_by_name_scan true "B" devices) as (_ & _ & Hspec).
  split.
  - apply Hunknown.
    intros device [<- | [<- | [<- | []]]]; cbn; intros H;
      first [reflexivity | discriminate].
  - apply Hspec. repeat constructor.
Defined.

(** ** The registry and the sorted names *)

Lemma ascii_compare_lt_trans (a b c : ascii) :
  Ascii.compare a b = Lt -> Ascii.compare b c = Lt -> Ascii.compare a c = Lt.
Proof.
  unfold Ascii.compare. rewrite !N.compare_lt_iff. apply N.lt_trans.
Qed.

Lemma name_le_trans (a b c : string) : name_le a b -> name_le b c -> name_le a c.
Proof.
  unfold name_le, String.leb.
  revert b c. induction a as [| x a IH]; intros [| y b] [| z c]; cbn;
    try congruence.
  destruct (Ascii.compare x y) eqn:Hxy; try congruence;
    destruct (Ascii.compare y z) eqn:Hyz; try congruence.
  - apply Ascii.compare_eq_iff in Hxy, Hyz. subst.
    replace (Ascii.compare z z) with Eq
      by (symmetry; unfold Ascii.compare; apply N.compare_refl).
    apply IH.
  - apply Ascii.compare_eq_iff in Hxy. subst. rewrite Hyz. reflexivity.
  - apply Ascii.compare_eq_iff in Hyz. subst. rewrite Hxy. reflexivity.
  - rewrite (ascii_compare_lt_trans x y z Hxy Hyz). reflexivity.
Qed.

Lemma sorted_is_sorted (names : list string) :
  StronglySorted name_le (sorted names).
Proof.
  apply (@NameSort.StronglySorted_sort names).
  intros a b c Hab Hbc. exact (name_le_trans a b c Hab Hbc).
Qed.

Lemma sorted_is_permutation (names : list string) :
  Permutation names (sorted names).
Proof. apply NameSort.Permuted_sort. Qed.

(** A list has one ascending arrangement. *)
Lemma sorting_of_unique (l names1 names2 : list string) :
  sorting_of l names1 -> sorting_of l names2 -> names1 = names2.
Proof.
  intros [Hperm1 Hsorted1] [Hperm2 Hsorted2].
  assert (Hperm : Permutation names1 names2)
    by (eapply Permutation_trans; [apply Permutation_sym|]; eassumption).
  clear Hperm1 Hperm2 l. revert names2 Hsorted2 Hperm.
  induction Hsorted1 as [| a l1 _ IH Ha]; intros names2 Hsorted2 Hperm.
  - apply Permutation_nil in Hperm. congruence.
  - destruct names2 as [| b l2];
      [apply Permutation_sym, Permutation_nil in Hperm; discriminate|].
    apply StronglySorted_inv in Hsorted2. destruct Hsorted2 as [Hsorted2 Hb].
    assert (Hab : a = b).
    { assert (Hin_a : In a (b :: l2))
        by (eapply Permutation_in; [exact Hperm | left; reflexivity]).
      assert (Hin_b : In b (a :: l1))
        by (eapply Permutation_in;
            [apply Permutation_sym; exact Hperm | left; reflexivity]).
      destruct Hin_a as [Heq | Hin_a]; [congruence|].
      destruct Hin_b as [Heq | Hin_b]; [congruence|].
      rewrite Forall_forall in Ha, Hb.
      apply String.leb_antisym; [apply Ha | apply Hb]; assumption. }
    subst b. f_equal. apply IH; [exact Hsorted2|].
    eapply Permutation_cons_inv. exact Hperm.
Qed.

Lemma sorted_sorting (names : list string) : sorting_of names (sorted names).
Proof. split; [apply sorted_is_permutation | apply sorted_is_sorted]. Qed.

Section RegistryProperties.
Context {D : Type} {pm : PmLib D}.

Implicit Types (w : World D).

Lemma DeviceInfo__init__run (device_id : Z) w :
  DeviceInfo__init__ device_id w =
  (match Pm_GetDeviceInfo (lib w) device_id with
   | None => Raise (IOError_device_not_found device_id)
   | Some info => device_of_info device_id info
   end,
   log_call (C_Pm_GetDeviceInfo device_id) (lib w) w).
Proof.
  unfold DeviceInfo__init__. run_monad.
  destruct (Pm_GetDeviceInfo (lib w) device_id); reflexivity.
Qed.

Lemma device_of_info_id (device_id : Z) (info : PmDeviceInfo.t)
      (device : DeviceInfo.t) :
  device_of_info device_id info = Return device ->
  DeviceInfo.device_id device = device_id.
Proof.
  unfold device_of_info.
  destruct (decode_utf8 (PmDeviceInfo.interface info)); try discriminate.
  destruct (decode_utf8 (PmDeviceInfo.name info)); try discriminate.
  intros [= <-]. reflexivity.
Qed.

Lemma device_of_info_no_fuel (device_id : Z) (info : PmDeviceInfo.t) :
  device_of_info device_id info <> OutOfFuel.
Proof.
  unfold device_of_info, decode_utf8.
  destruct (PmDeviceInfo.interface info) as [i |]; [|discriminate].
  destruct (utf8_valid i); [|discriminate].
  destruct (PmDeviceInfo.name info) as [n |]; [|discriminate].
  destruct (utf8_valid n); discriminate.
Qed.


(** The devices come in the order of the ids asked for, each as the driver
    describes it; the driver itself is not moved. *)
Lemma for_each_device (ids : list Z) w (devices : list DeviceInfo.t) w' :
  for_each ids DeviceInfo__init__ w = (Return devices, w') ->
  map DeviceInfo.device_id devices = ids
  /\ lib w' = lib w
  /\ _initialized w' = _initialized w.
Proof.
  revert w devices. induction ids as [| i ids IH]; intros w devices.
  - cbn. intros [= <- <-]. auto.
  - cbn [for_each]. unfold bind at 1. rewrite DeviceInfo__init__run.
    destruct (Pm_GetDeviceInfo (lib w) i) as [info |]; [|discriminate].
    destruct (device_of_info i info) as [dev | e |] eqn:Hdev; try discriminate.
    unfold bind at 1.
    destruct (for_each ids DeviceInfo__init__ _) as [[ds | e |] w1] eqn:Hrest;
      try discriminate.
    unfold ret. intros [= <- <-].
    destruct (IH _ _ Hrest) as (Hids & Hlib & Hinit).
    cbn [map]. rewrite Hids, (device_of_info_id i info dev Hdev). auto.
Qed.

Lemma get_devices_registry w (devices : list DeviceInfo.t) w' :
  get_devices w = (Return devices, w') ->
  map DeviceInfo.device_id devices = range (Pm_CountDevices (lib w))
  /\ lib w' = lib w
  /\ _initialized w' = _initialized w.
Proof.
  unfold get_devices. run_monad. intros H.
  apply for_each_device in H. exact H.
Qed.

(** C10. On every registry that [get_devices] can list, [get_input_names]
    and [get_output_names] return, in the same world as [get_devices], the
    names of the devices with a true [is_input] (respectively [is_output])
    flag put in ascending order: a permutation of those names, so with every
    duplicate kept and nothing added or dropped, that is sorted; and no other
    list is. *)
Theorem names_sorted_projection w (devices : list DeviceInfo.t) w' :
  get_devices w = (Return devices, w') ->
  let inputs :=
    map DeviceInfo.name
        (filter (fun d => truthy (DeviceInfo.is_input d)) devices) in
  let outputs :=
    map DeviceInfo.name
        (filter (fun d => truthy (DeviceInfo.is_output d)) devices) in
  exists input_names output_names,
    get_input_names w = (Return input_names, w')
    /\ get_output_names w = (Return output_names, w')
    /\ Permutation inputs input_names
    /\ StronglySorted name_le input_names
    /\ (forall l, sorting_of inputs l -> l = input_names)
    /\ Permutation outputs output_names
    /\ StronglySorted name_le output_names
    /\ (forall l, sorting_of outputs l -> l = output_names).
Proof.
  intros Hdevices inputs outputs.
  exists (sorted inputs), (sorted outputs).
  unfold get_input_names, get_output_names, bind. rewrite Hdevices.
  fold inputs outputs.
  repeat split;
    first [ apply sorted_is_permutation
          | apply sorted_is_sorted
          | intros l Hl; eapply sorting_of_unique;
            [exact Hl | apply sorted_sorting] ].
Qed.
End RegistryProperties.

Lemma names_sorted_projection_witness :
  let d := Mock.make [Some (Mock.info "B" 1 0 0); Some (Mock.info "A" 1 1 0);
                      Some (Mock.info "C" 0 1 0); Some (Mock.info "A" 1 0 1)] 0 [] in
  fst (get_input_names (Mock.fresh d)) = Return ["A"; "A"; "B"]
  /\ fst (get_output_names (Mock.fresh d)) = Return ["A"; "C"]
  /\ exists input_names output_names,
      get_input_names (Mock.fresh d)
      = (Return input_names, snd (get_devices (Mock.fresh d)))
      /\ get_output_names (Mock.fresh d)
         = (Return output_names, snd (get_devices (Mock.fresh d)))
      /\ Permutation ["B"; "A"; "A"] input_names
      /\ StronglySorted name_le input_names
      /\ (forall l, sorting_of ["B"; "A"; "A"] l -> l = input_names)
      /\ Permutation ["A"; "C"] output_names
      /\ StronglySorted name_le output_names
      /\ (forall l, sorting_of ["A"; "C"] l -> l = output_names).
Proof.
  intros d. split; [reflexivity|]. split; [reflexivity|].
  exact (names_sorted_projection (Mock.fresh d) _ _ eq_refl).
Defined.

(** ** [Input.poll] *)

Section PollProperties.
Context {D : Type} {pm : PmLib D} {P : Type} {parser : ParserOps P}.

Implicit Types (self : Port.t P) (w : World D) (p : P).

(** The four rounds of lines 323-326 feed the parser the bytes of the word,
    low byte first. *)
Lemma feed_packed_run (n : nat) (value : Z) self w p :
  Port._parser self = Some p ->
  feed_packed n value (self, w)
  = (Return tt,
     (Port.set_parser (Some (fold_left feed_byte (unpack n value) p)) self, w)).
Proof.
  revert value self p. induction n as [| n IH]; intros value self p Hp.
  - cbn. unfold ret. destruct self; cbn in *. subst. reflexivity.
  - cbn [feed_packed unpack fold_left]. unfold bind at 1.
    unfold parser_feed_byte. run_monad. rewrite Hp. cbn [fst snd].
    rewrite (IH _ _ (feed_byte p (Z.land value 255))) by reflexivity.
    reflexivity.
Qed.

Lemma poll_loop_drains (s : stream) (d : D) (buffer : PmEvent)
      (events : list PmEvent) (d' : D) :
  hands_out s d buffer events d' ->
  forall (fuel : nat) self p (init : bool) (cs : list call),
    (List.length events < fuel)%nat ->
    Port._stream self = s ->
    Port._parser self = Some p ->
    poll_loop fuel buffer
      (self, {| _initialized := init; lib := d; calls := cs |})
    = (Return tt,
       (Port.set_parser
          (Some (fold_left feed_byte (flat_map message_bytes events) p)) self,
        {| _initialized := init; lib := d';
           calls := cs ++ poll_calls s (List.length events) |})).
Proof.
  induction 1 as [d d' buffer pending Hpoll Hno
                 | d d1 d2 d' buffer event pending num_events events
                     Hpoll Hyes Hread Hnum _ IH];
    intros fuel self p init cs Hfuel Hs Hp;
    (destruct fuel as [| fuel]; [cbn in Hfuel; lia|]);
    cbn [poll_loop]; run_monad; unfold log_call;
    cbn [fst snd lib calls _initialized]; rewrite Hs, Hpoll;
    cbn [fst snd lib calls _initialized].
  - rewrite Hno. destruct self; cbn in *. subst. reflexivity.
  - rewrite Hyes. cbn [fst snd lib calls _initialized].
    rewrite Hread. cbn [fst snd lib calls _initialized].
    rewrite check_error_run.
    replace (num_events <? 0) with false by (symmetry; apply Z.ltb_ge; lia).
    cbn [fst snd].
    rewrite (feed_packed_run 4 _ _ _ p Hp). cbn [fst snd].
    rewrite (IH fuel _ (fold_left feed_byte (message_bytes event) p))
      by (cbn in *; first [lia | assumption | reflexivity]).
    cbn [flat_map List.length poll_calls].
    rewrite fold_left_app, <- !app_assoc. reflexivity.
Qed.

(** C6. On an open input port, when the driver hands out the events
    [events] and then reports nothing pending, [poll] returns for every bound
    above the number of events; its driver calls are one [Pm_Read] of length
    1 after each true [Pm_Poll] and the [Pm_Poll] that ends the loop; the
    parser has been fed the 4 bytes of each event in order; and the value
    returned is the number of messages the parser holds. *)
Theorem poll_drains_pending (fuel : nat) self w p
        (events : list PmEvent) (d' : D) :
  Port.closed self = false ->
  Port._parser self = Some p ->
  hands_out (Port._stream self) (lib w) {| message := 0; timestamp := 0 |}
            events d' ->
  (List.length events < fuel)%nat ->
  let p' := fold_left feed_byte (flat_map message_bytes events) p in
  poll fuel (self, w)
  = (Return (Some (Z.of_nat (List.length (_parsed_messages p')))),
     (Port.set_parser (Some p') self,
      {| _initialized := _initialized w; lib := d';
         calls := calls w
                  ++ poll_calls (Port._stream self) (List.length events) |})).
Proof.
  intros Hopen Hp Hdrv Hfuel p'.
  unfold poll. unfold bind at 1. unfold self_get at 1. cbn [fst snd].
  rewrite Hopen. unfold bind at 1.
  destruct w as [init d cs]. cbn [lib calls _initialized] in *.
  rewrite (poll_loop_drains _ _ _ _ _ Hdrv fuel self p init cs Hfuel eq_refl Hp).
  reflexivity.
Qed.
End PollProperties.

(** The scripted driver hands out its queue. *)
Lemma mock_hands_out (s : stream) (d : Mock.driver) (buffer : PmEvent) :
  hands_out s d buffer (Mock.pending d) (Mock.with_pending [] d).
Proof.
  destruct d as [t di do oc cc wc q]. revert buffer.
  induction q as [| e q IH]; intros buffer.
  - eapply hands_out_nothing; reflexivity.
  - eapply hands_out_event with (pending := 1) (num_events := 1);
      try reflexivity; [lia|]. apply IH.
Qed.

Lemma poll_drains_pending_witness :
  let events := [{| message := 8339600; timestamp := 0 |};
                 {| message := 32912; timestamp := 5 |}] in
  let w := Mock.fresh (Mock.make mock_table 0 events) in
  poll 3 (open_input, w)
  = (Return (Some 3),
     (Port.set_parser
        (Some [Message.make "status" [144] [144];
               Message.make "status" [144] [144];
               Message.make "status" [128] [128]]) open_input,
      {| _initialized := false; lib := Mock.make mock_table 0 [];
         calls := [C_Pm_Poll 1; C_Pm_Read 1 1; C_Pm_Poll 1; C_Pm_Read 1 1;
                   C_Pm_Poll 1] |})).
Proof.
  intros events w.
  exact (poll_drains_pending 3 open_input w [] events
           (Mock.make mock_table 0 []) eq_refl eq_refl
           (mock_hands_out 1 (Mock.make mock_table 0 events) _)
           (le_n 3)).
Defined.

(** ** The initialization flag *)

Section Keeps.
Context {S : Type} (I : S -> Prop).

Lemma keeps_ret {A} (a : A) : keeps I (ret a).
Proof. intros s Hs. exact Hs. Qed.

Lemma keeps_raise {A} (e : exn) : keeps I (raise (A := A) e).
Proof. intros s Hs. exact Hs. Qed.

Lemma keeps_gets {A} (f : S -> A) : keeps I (gets f).
Proof. intros s Hs. exact Hs. Qed.

Lemma keeps_lift_outcome {A} (r : outcome A) : keeps I (lift_outcome r).
Proof. intros s Hs. exact Hs. Qed.

Lemma keeps_out_of_fuel {A} : keeps I (out_of_fuel (A := A)).
Proof. intros s Hs. exact Hs. Qed.

Lemma keeps_bind {A B} (m : M S A) (k : A -> M S B) :
  keeps I m -> (forall a, keeps I (k a)) -> keeps I (bind m k).
Proof.
  intros Hm Hk s Hs. unfold bind. specialize (Hm s Hs).
  destruct (m s) as [[a | e |] s']; cbn in *; [apply Hk|..]; exact Hm.
Qed.

Lemma keeps_for_each {A B} (xs : list A) (body : A -> M S B) :
  (forall x, keeps I (body x)) -> keeps I (for_each xs body).
Proof.
  intros Hbody. induction xs as [| x xs IH]; cbn [for_each].
  - apply keeps_ret.
  - apply keeps_bind; [apply Hbody|]. intros y.
    apply keeps_bind; [exact IH|]. intros ys. apply keeps_ret.
Qed.
End Keeps.

Create HintDb keeps.
#[local] Hint Resolve keeps_ret keeps_raise keeps_gets keeps_lift_outcome
  keeps_out_of_fuel : keeps.

Ltac keeps_step :=
  first
    [ apply keeps_bind; [|intro]
    | apply keeps_for_each; intro
    | solve [auto with keeps]
    | match goal with
      | |- keeps _ (if ?c then _ else _) => destruct c
      | |- keeps _ (match ?x with _ => _ end) => destruct x
      end ].

Section Initialization.
Context {D : Type} {pm : PmLib D} {P : Type} {parser : ParserOps P}.

Implicit Types (w : World D).

Lemma initialize_run w :
  _initialize w =
  if _initialized w
  then (Return tt,
        {| _initialized := true; lib := Pm_Initialize (lib w);
           calls := calls w ++ [C_Pm_Initialize] |})
  else (Return tt, w).
Proof.
  unfold _initialize. run_monad. destruct (_initialized w); reflexivity.
Qed.

Lemma keeps_pm_call {A} (c : call) (f : D -> A * D) :
  c <> C_Pm_Initialize -> keeps uninitialized (pm_call c f).
Proof.
  intros Hc w [Hflag Hcalls]. unfold pm_call.
  destruct (f (lib w)) as [a d]. unfold log_call. cbn [snd calls _initialized].
  split; [exact Hflag|].
  intros Hin. apply in_app_or in Hin.
  destruct Hin as [Hin | [Heq | []]]; [auto | congruence].
Qed.

Lemma keeps_pm_query {A} (c : call) (f : D -> A) :
  c <> C_Pm_Initialize -> keeps uninitialized (pm_query c f).
Proof. intros Hc. apply keeps_pm_call. exact Hc. Qed.

Lemma keeps_initialize : keeps uninitialized (_initialize (D := D)).
Proof.
  intros w Hw. rewrite initialize_run.
  destruct Hw as [Hflag Hcalls]. rewrite Hflag. split; assumption.
Qed.

Lemma keeps_terminate : keeps uninitialized (_terminate (D := D)).
Proof.
  intros w Hw. unfold _terminate. run_monad.
  destruct Hw as [Hflag Hcalls]. rewrite Hflag. split; assumption.
Qed.

Lemma keeps_check_error (rv : Z) : keeps uninitialized (_check_error (D := D) rv).
Proof.
  unfold _check_error. destruct (rv <? 0); [|apply keeps_ret].
  apply keeps_bind; [apply keeps_pm_query; discriminate|].
  intros text. apply keeps_raise.
Qed.

Lemma keeps_DeviceInfo__init__ (device_id : Z) :
  keeps uninitialized (DeviceInfo__init__ (D := D) device_id).
Proof.
  unfold DeviceInfo__init__.
  apply keeps_bind; [apply keeps_pm_query; discriminate|].
  intros [info |]; auto with keeps.
Qed.

Lemma keeps_get_devices : keeps uninitialized (get_devices (D := D)).
Proof.
  unfold get_devices.
  apply keeps_bind; [apply keeps_pm_query; discriminate|]. intros count.
  apply keeps_for_each. apply keeps_DeviceInfo__init__.
Qed.

Lemma keeps_get_input_names : keeps uninitialized (get_input_names (D := D)).
Proof.
  unfold get_input_names. apply keeps_bind; [apply keeps_get_devices|].
  intros devices. apply keeps_ret.
Qed.

Lemma keeps_get_output_names : keeps uninitialized (get_output_names (D := D)).
Proof.
  unfold get_output_names. apply keeps_bind; [apply keeps_get_devices|].
  intros devices. apply keeps_ret.
Qed.

Lemma keeps_in_world {A} (m : M (World D) A) :
  keeps uninitialized m -> keeps method_uninitialized (in_world (P := P) m).
Proof.
  intros Hm [self w] Hw. unfold in_world. cbn [fst snd].
  specialize (Hm w Hw). destruct (m w) as [r w']. exact Hm.
Qed.

Lemma keeps_self_get {A} (f : Port.t P -> A) :
  keeps method_uninitialized (self_get (D := D) f).
Proof. intros st Hst. exact Hst. Qed.

Lemma keeps_self_set (f : Port.t P -> Port.t P) :
  keeps method_uninitialized (self_set (D := D) f).
Proof. intros st Hst. exact Hst. Qed.

Lemma keeps_open_stream (this_is_input : bool) (device_id : Z) :
  keeps method_uninitialized (open_stream (P := P) this_is_input device_id).
Proof.
  intros [self w] [Hflag Hcalls]. unfold open_stream. cbn [fst snd].
  destruct this_is_input;
    [destruct (Pm_OpenInput _ _ _ _) as [[rv s] d]
    |destruct (Pm_OpenOutput _ _ _ _ _) as [[rv s] d]];
    unfold log_call; cbn [snd calls _initialized];
    (split; [exact Hflag|]);
    intros Hin; apply in_app_or in Hin;
    destruct Hin as [Hin | [Heq | []]]; solve [auto | discriminate].
Qed.

#[local] Hint Resolve keeps_initialize keeps_terminate keeps_check_error
  keeps_DeviceInfo__init__ keeps_get_devices keeps_get_input_names
  keeps_get_output_names keeps_in_world keeps_self_get keeps_self_set
  keeps_open_stream : keeps.

#[local] Hint Extern 1 (keeps _ (pm_call _ _)) =>
  apply keeps_pm_call; discriminate : keeps.
#[local] Hint Extern 1 (keeps _ (pm_query _ _)) =>
  apply keeps_pm_query; discriminate : keeps.

Lemma keeps_select_device (this_is_input : bool) (name : option string) :
  keeps method_uninitialized
        (select_device (D := D) (P := P) this_is_input name).
Proof.
  unfold select_device. destruct name as [n |]; [|destruct this_is_input];
    repeat keeps_step.
Qed.

Lemma keeps_set_device_opened (v : bool) :
  keeps method_uninitialized (set_device_opened (D := D) (P := P) v).
Proof. unfold set_device_opened. repeat keeps_step. Qed.

#[local] Hint Resolve keeps_select_device keeps_set_device_opened : keeps.

Lemma keeps_Port__init__body (name : option string) :
  keeps method_uninitialized (Port__init__body (D := D) (P := P) name).
Proof. unfold Port__init__body. repeat keeps_step. Qed.

Lemma keeps_close : keeps method_uninitialized (close (D := D) (P := P)).
Proof. unfold close. repeat keeps_step. Qed.

Lemma keeps_with (body : M (Port.t P * World D) unit) :
  keeps method_uninitialized body -> keeps method_uninitialized (with_ body).
Proof.
  intros Hbody st Hst. unfold method_uninitialized.
  rewrite with_state. apply Hbody. exact Hst.
Qed.

Lemma keeps_feed_packed (n : nat) (value : Z) :
  keeps method_uninitialized (feed_packed (D := D) (P := P) n value).
Proof.
  revert value. induction n as [| n IH]; intros value; cbn [feed_packed].
  - apply keeps_ret.
  - apply keeps_bind; [|intros _; apply IH].
    unfold parser_feed_byte. repeat keeps_step.
Qed.

#[local] Hint Resolve keeps_feed_packed : keeps.

Lemma keeps_poll_loop (fuel : nat) (read_buffer : PmEvent) :
  keeps method_uninitialized (poll_loop (D := D) (P := P) fuel read_buffer).
Proof.
  revert read_buffer. induction fuel as [| fuel IH]; intros read_buffer;
    cbn [poll_loop]; [apply keeps_out_of_fuel|].
  apply keeps_bind; [auto with keeps|]. intros s.
  apply keeps_bind; [auto with keeps|]. intros pending.
  destruct (truthy pending); [|apply keeps_ret].
  apply keeps_bind; [auto with keeps|]. intros r.
  apply keeps_bind; [auto with keeps|]. intros _.
  apply keeps_bind; [auto with keeps|]. intros _. apply IH.
Qed.

#[local] Hint Resolve keeps_poll_loop : keeps.

Lemma keeps_poll (fuel : nat) :
  keeps method_uninitialized (poll (D := D) (P := P) fuel).
Proof. unfold poll. repeat keeps_step. Qed.

Lemma keeps_send (message : Message.t) :
  keeps method_uninitialized (send (D := D) (P := P) message).
Proof. unfold send. repeat keeps_step. Qed.

Lemma run_function_uninitialized {A} (m : M (World D) A) (s : @Session D P) :
  keeps uninitialized m -> uninitialized (world s) ->
  uninitialized (world (run_function m s)).
Proof. intros Hm Hs. apply Hm. exact Hs. Qed.

Lemma run_method_uninitialized {A} (i : nat) (m : M (Port.t P * World D) A)
      (s : @Session D P) :
  keeps method_uninitialized m -> uninitialized (world s) ->
  uninitialized (world (run_method i m s)).
Proof.
  intros Hm Hs. unfold run_method.
  destruct (nth_error (ports s) i) as [self |]; [|exact Hs].
  apply (Hm (self, world s)). exact Hs.
Qed.

Lemma run_constructor_uninitialized (cls : port_class) (name : option string)
      (s : @Session D P) :
  uninitialized (world s) ->
  uninitialized (world (run_constructor (new cls name) s)).
Proof.
  intros Hs. unfold run_constructor.
  assert (Hport : uninitialized
                    (snd (snd (Port__init__ (P := P) cls name (world s))))).
  { apply (keeps_Port__init__body name
             (Port.make cls name true 0 None None, world s)). exact Hs. }
  assert (Hnew : uninitialized (snd (snd (new cls name (world s))))).
  { destruct cls; [|exact Hport].
    unfold new, Input__init__.
    destruct (Port__init__ Input name (world s)) as [[[] | e |] st];
      exact Hport. }
  destruct (new cls name (world s)) as [[[] | e |] [self w]]; exact Hnew.
Qed.

Lemma run_op_uninitialized (o : op) (s : @Session D P) :
  uninitialized (world s) -> uninitialized (world (run_op o s)).
Proof.
  destruct o; cbn [run_op];
    first [ apply run_function_uninitialized; auto with keeps
          | apply run_method_uninitialized
          | idtac ].
  - apply (run_constructor_uninitialized Input).
  - apply (run_constructor_uninitialized Output).
  - apply keeps_close.
  - apply keeps_close.
  - apply keeps_with. apply keeps_ret.
  - apply keeps_poll.
  - apply keeps_send.
Qed.

(** C7. [_initialize] calls [Pm_Initialize] and sets the flag only when the
    flag is already true; the module starts with the flag false; so after any
    sequence of the module's operations (registry queries, constructions, and
    the methods of the ports constructed) the flag is still false and
    [Pm_Initialize] has not been called. *)
Theorem driver_never_initialized (d : D) (ops : list op) :
  (forall w : World D,
      _initialize w =
      if _initialized w
      then (Return tt,
            {| _initialized := true; lib := Pm_Initialize (lib w);
               calls := calls w ++ [C_Pm_Initialize] |})
      else (Return tt, w))
  /\ _initialized (world (start (P := P) d)) = false
  /\ _initialized (world (run ops (start (P := P) d))) = false
  /\ ~ In C_Pm_Initialize (calls (world (run ops (start (P := P) d)))).
Proof.
  split; [exact initialize_run|]. split; [reflexivity|].
  assert (Hrun : forall s : @Session D P,
             uninitialized (world s) -> uninitialized (world (run ops s))).
  { unfold run. induction ops as [| o ops IH]; intros s Hs; cbn [fold_left].
    - exact Hs.
    - apply IH. apply run_op_uninitialized. exact Hs. }
  apply (Hrun (start (P := P) d)). split; [reflexivity|]. intros [].
Qed.
End Initialization.

(** A session on the scripted driver: every call made, in order. *)
Example session_calls :
  calls (world (run (P := list Message.t)
                  [Op_Input (Some "A"); Op_get_input_names; Op_poll 0 3;
                   Op_with 0; Op_close 0; Op_Output None]
                  (start (Mock.make mock_table 0
                            [{| message := 8339600; timestamp := 0 |}]))))
  = [C_Pm_CountDevices; C_Pm_GetDeviceInfo 0; C_Pm_GetDeviceInfo 1;
     C_Pm_OpenInput 0 1000;
     C_Pm_CountDevices; C_Pm_GetDeviceInfo 0; C_Pm_GetDeviceInfo 1;
     C_Pm_Poll 1; C_Pm_Read 1 1; C_Pm_Poll 1;
     C_Pm_Close 1;
     C_Pm_GetDefaultOutputDeviceID; C_Pm_GetDeviceInfo 1; C_Pm_OpenOutput 1 0 0].
Proof. reflexivity. Qed.

(** * Further properties of the module *)

Local Open Scope list_scope.

(** ** The codec, both ways *)

Lemma unpack_length (n : nat) (w : Z) : List.length (unpack n w) = n.
Proof.
  revert w. induction n as [| n IH]; intros w; cbn; [|rewrite IH]; reflexivity.
Qed.

Lemma unpack_bytes (n : nat) (w : Z) : Forall is_byte (unpack n w).
Proof.
  revert w. induction n as [| n IH]; intros w; cbn [unpack]; constructor.
  - assert (Hmod : Z.land w 255 = w mod 256)
      by (change 255 with (Z.ones 8); rewrite Z.land_ones by lia; reflexivity).
    unfold is_byte. rewrite Hmod.
    pose proof (Z.mod_pos_bound w 256 eq_refl) as H. lia.
  - apply IH.
Qed.

Lemma unpack_app (n k : nat) (w : Z) :
  unpack (n + k) w
  = (unpack n w ++ unpack k (Z.shiftr w (8 * Z.of_nat n)))%list.
Proof.
  revert w. induction n as [| n IH]; intros w.
  - cbn [Nat.add unpack app]. rewrite Z.shiftr_0_r. reflexivity.
  - cbn [Nat.add unpack app]. rewrite IH, Z.shiftr_shiftr by lia.
    replace (8 * Z.of_nat (S n)) with (8 + 8 * Z.of_nat n) by lia.
    reflexivity.
Qed.

Lemma unpack_zero (k : nat) : unpack k 0 = repeat 0 k.
Proof.
  induction k as [| k IH]; [reflexivity|].
  cbn [unpack repeat]. rewrite Z.shiftr_0_l, IH. reflexivity.
Qed.

(** Packing what [unpack] took apart gives the low [8*n] bits back. *)
Lemma packed_unpack (n : nat) (w : Z) :
  packed_message_of (unpack n w) = w mod 256 ^ Z.of_nat n.
Proof.
  revert w. induction n as [| n IH]; intros w.
  - cbn. rewrite Z.mod_1_r. reflexivity.
  - cbn [unpack]. rewrite packed_message_of_cons, IH.
    assert (Hbyte : is_byte (Z.land w 255))
      by (pose proof (unpack_bytes 1 w) as H; inversion H; assumption).
    rewrite shifted_lor_byte by exact Hbyte.
    change 255 with (Z.ones 8). rewrite Z.land_ones, Z.shiftr_div_pow2 by lia.
    change (2 ^ 8) with 256.
    replace (Z.of_nat (S n)) with (Z.succ (Z.of_nat n)) by lia.
    rewrite Z.pow_succ_r by lia.
    rewrite (Z.rem_mul_r w 256 (256 ^ Z.of_nat n)) by lia. lia.
Qed.

(** X1. Whatever integer the driver leaves in [event.message] (negative, or
    wider than 32 bits), the loop of [poll] and [_print_event] yields exactly
    4 values, each in 0..255, and they depend only on the low 32 bits. *)
Theorem message_bytes_are_four_bytes (event : PmEvent) :
  List.length (message_bytes event) = 4%nat
  /\ Forall is_byte (message_bytes event)
  /\ message_bytes event
     = message_bytes {| message := message event mod 2 ^ 32;
                        timestamp := timestamp event |}.
Proof.
  unfold message_bytes. cbn [message]. split; [|split].
  - apply unpack_length.
  - apply unpack_bytes.
  - change 4294967295 with (Z.ones 32). rewrite !Z.land_ones by lia.
    rewrite Z.mod_mod by lia. reflexivity.
Qed.

Lemma packed_below_word (bs : list Z) :
  Forall is_byte bs ->
  (List.length bs <= 4)%nat ->
  0 <= packed_message_of bs < 2 ^ 32.
Proof.
  intros Hbytes Hlen.
  pose proof (packed_message_of_bounds bs Hbytes) as Hb.
  assert (256 ^ Z.of_nat (List.length bs) <= 256 ^ 4)
    by (apply Z.pow_le_mono_r; lia).
  change (256 ^ 4) with (2 ^ 32) in *. lia.
Qed.

(** X2. A sequence of at most 4 bytes packs into a word of 32 bits, so the
    word handed to [Pm_WriteShort] fits the driver's message type. *)
Theorem packed_message_fits_word (bs : list Z) :
  Forall is_byte bs ->
  (List.length bs <= 4)%nat ->
  0 <= packed_message_of bs < 2 ^ 32.
Proof. exact (packed_below_word bs). Qed.

Lemma packed_message_fits_word_witness :
  0 <= packed_message_of [144; 64; 127] < 2 ^ 32.
Proof.
  apply packed_message_fits_word.
  - repeat constructor; unfold is_byte; lia.
  - cbn. lia.
Defined.

(** X3. The word packed from 1 to 4 bytes decodes to those bytes followed by
    zeros up to 4: the parser is fed a zero for every byte the message does
    not have. *)
Theorem decode_pads_with_zeros (bs : list Z) (ts : Z) :
  Forall is_byte bs ->
  (List.length bs <= 4)%nat ->
  message_bytes {| message := packed_message_of bs; timestamp := ts |}
  = (bs ++ repeat 0 (4 - List.length bs))%list.
Proof.
  intros Hbytes Hlen.
  pose proof (packed_below_word bs Hbytes Hlen) as Hfit.
  pose proof (packed_message_of_bounds bs Hbytes) as Hb.
  unfold message_bytes. cbn [message].
  change 4294967295 with (Z.ones 32).
  rewrite Z.land_ones, Z.mod_small by lia.
  replace 4%nat with (List.length bs + (4 - List.length bs))%nat at 1 by lia.
  rewrite unpack_app, unpack_packed by exact Hbytes.
  rewrite Z.shiftr_div_pow2 by lia.
  replace (2 ^ (8 * Z.of_nat (List.length bs)))
    with (256 ^ Z.of_nat (List.length bs))
    by (change 256 with (2 ^ 8); rewrite <- Z.pow_mul_r by lia; reflexivity).
  rewrite Z.div_small by lia. rewrite unpack_zero. reflexivity.
Qed.

Lemma decode_pads_with_zeros_witness :
  message_bytes {| message := packed_message_of [192; 5]; timestamp := 0 |}
  = ([192; 5] ++ repeat 0 (4 - 2))%list.
Proof.
  apply (decode_pads_with_zeros [192; 5] 0).
  - repeat constructor; unfold is_byte; lia.
  - cbn. lia.
Defined.

(** X4. Decoding then packing is the identity on 32-bit words: packing the 4
    bytes read from an event gives [event.message] modulo 2^32. *)
Theorem pack_decoded_event (event : PmEvent) :
  packed_message_of (message_bytes event) = message event mod 2 ^ 32.
Proof.
  unfold message_bytes. rewrite packed_unpack.
  change 4294967295 with (Z.ones 32). rewrite Z.land_ones by lia.
  change (256 ^ Z.of_nat 4) with (2 ^ 32). apply Z.mod_mod. lia.
Qed.

(** ** The registry *)

Section RegistryRuns.
Context {D : Type} {pm : PmLib D}.

Implicit Types (w : World D).

Lemma for_each_device_returns (ids : list Z) w (devices : list DeviceInfo.t) w' :
  for_each ids DeviceInfo__init__ w = (Return devices, w') ->
  Forall2 (describes w) ids devices
  /\ w' = after_queries (map C_Pm_GetDeviceInfo ids) w.
Proof.
  revert w devices. induction ids as [| i ids IH]; intros w devices.
  - cbn. intros [= <- <-]. split; [constructor|].
    unfold after_queries. rewrite app_nil_r. destruct w; reflexivity.
  - cbn [for_each]. unfold bind at 1. rewrite DeviceInfo__init__run.
    destruct (Pm_GetDeviceInfo (lib w) i) as [info |] eqn:Hinfo; [|discriminate].
    destruct (device_of_info i info) as [dev | e |] eqn:Hdev; try discriminate.
    unfold bind at 1.
    destruct (for_each ids DeviceInfo__init__ _) as [[ds | e |] w1] eqn:Hrest;
      try discriminate.
    unfold ret. intros [= <- <-].
    destruct (IH _ _ Hrest) as [Hall ->]. split.
    + constructor; [exists info; split; [exact Hinfo | exact Hdev]|].
      exact Hall.
    + unfold after_queries, log_call. cbn [lib calls _initialized map].
      rewrite <- app_assoc. reflexivity.
Qed.

Lemma for_each_device_raises (pre : list Z) (i : Z) (post : list Z) w
      (e : exn) :
  (forall j, In j pre -> exists device, device_result w j = Return device) ->
  device_result w i = Raise e ->
  for_each (pre ++ i :: post) DeviceInfo__init__ w
  = (Raise e, after_queries (map C_Pm_GetDeviceInfo (pre ++ [i])) w).
Proof.
  revert w. induction pre as [| j pre IH]; intros w Hpre Hi.
  - cbn [app for_each]. unfold bind at 1. rewrite DeviceInfo__init__run.
    fold (device_result w i). rewrite Hi. reflexivity.
  - cbn [app for_each]. unfold bind at 1. rewrite DeviceInfo__init__run.
    fold (device_result w j).
    destruct (Hpre j (or_introl eq_refl)) as [dev ->].
    unfold bind at 1. rewrite IH.
    + unfold after_queries, log_call. cbn [lib calls _initialized map app].
      rewrite <- app_assoc. reflexivity.
    + intros k Hk. apply Hpre. right. exact Hk.
    + exact Hi.
Qed.

Lemma range_split (i count : Z) :
  0 <= i < count -> exists post, range count = range i ++ i :: post.
Proof.
  intros Hi. unfold range.
  replace (Z.to_nat count)
    with (Z.to_nat i + S (Z.to_nat (count - i - 1)))%nat by lia.
  rewrite seq_app, map_app. cbn [seq map Nat.add].
  rewrite Z2Nat.id by lia. eauto.
Qed.

Lemma in_range (j n : Z) : In j (range n) <-> 0 <= j < n.
Proof.
  unfold range. rewrite in_map_iff. split.
  - intros [k [<- Hk]]. apply in_seq in Hk. lia.
  - intros Hj. exists (Z.to_nat j). split; [lia|]. apply in_seq. lia.
Qed.

(** X5. When [get_devices] returns, it returns one record for each id from 0
    to the count less one, in that order, each built from the driver's info
    for that id; the driver has been asked for the count and for each id
    once, in order, and nothing else has changed. *)
Theorem get_devices_lists_registry w (devices : list DeviceInfo.t) w' :
  get_devices w = (Return devices, w') ->
  let count := Pm_CountDevices (lib w) in
  Forall2 (describes w) (range count) devices
  /\ List.length devices = Z.to_nat count
  /\ w' = after_queries
            (C_Pm_CountDevices :: map C_Pm_GetDeviceInfo (range count)) w.
Proof.
  intros Hget count. unfold get_devices in Hget. revert Hget. run_monad.
  intros Hget. apply for_each_device_returns in Hget.
  destruct Hget as [Hall ->]. split; [exact Hall|]. split.
  - apply Forall2_length in Hall. rewrite <- Hall.
    unfold range. rewrite length_map, length_seq. reflexivity.
  - unfold after_queries, log_call. cbn [lib calls _initialized].
    rewrite <- app_assoc. reflexivity.
Qed.

(** X6. When [DeviceInfo(i)] raises for some id below the driver's count
    ([IOError] where the driver has no info, [UnicodeDecodeError] where the
    interface or the name is not UTF-8) and returns for every id before it,
    [get_devices] raises that error after asking for the ids up to [i];
    [get_input_names] and [get_output_names] raise the same error in the
    same world. *)
Theorem get_devices_first_failure w (i : Z) (e : exn) :
  0 <= i < Pm_CountDevices (lib w) ->
  device_result w i = Raise e ->
  (forall j, 0 <= j < i -> exists device, device_result w j = Return device) ->
  let w' := after_queries
              (C_Pm_CountDevices :: map C_Pm_GetDeviceInfo (range (i + 1))) w in
  get_devices w = (Raise e, w')
  /\ get_input_names w = (Raise e, w')
  /\ get_output_names w = (Raise e, w').
Proof.
  intros Hi Hraise Hbefore w'.
  assert (Hget : get_devices w = (Raise e, w')).
  { unfold get_devices. run_monad.
    destruct (range_split i _ Hi) as [post ->].
    rewrite (for_each_device_raises (range i) i post _ e).
    - subst w'. unfold after_queries, log_call. cbn [lib calls _initialized].
      rewrite <- app_assoc.
      destruct (range_split i (i + 1) ltac:(lia)) as [post' Hsplit].
      assert (post' = []) as ->.
      { apply (f_equal (@List.length Z)) in Hsplit.
        unfold range in Hsplit.
        rewrite length_app, !length_map, !length_seq in Hsplit.
        cbn [List.length] in Hsplit. destruct post'; [reflexivity|].
        cbn [List.length] in Hsplit. lia. }
      rewrite Hsplit. reflexivity.
    - intros j Hj. apply in_range in Hj.
      destruct (Hbefore j ltac:(lia)) as [dev Hdev]. exists dev. exact Hdev.
    - exact Hraise. }
  split; [exact Hget|].
  unfold get_input_names, get_output_names, bind. rewrite Hget. split; reflexivity.
Qed.
End RegistryRuns.

Lemma get_devices_lists_registry_witness :
  let w := Mock.fresh (Mock.make mock_table 0 []) in
  exists devices,
    fst (get_devices w) = Return devices
    /\ Forall2 (describes w) [0; 1] devices
    /\ List.length devices = 2%nat
    /\ calls (snd (get_devices w))
       = [C_Pm_CountDevices; C_Pm_GetDeviceInfo 0; C_Pm_GetDeviceInfo 1].
Proof.
  intros w.
  destruct (get_devices w) as [r w'] eqn:Hget.
  assert (Hr : exists devices, r = Return devices).
  { vm_compute in Hget. injection Hget as <- _. eauto. }
  destruct Hr as [devices ->]. exists devices.
  destruct (get_devices_lists_registry w devices w' Hget) as (Hall & Hlen & ->).
  repeat split; assumption.
Defined.

Lemma get_devices_first_failure_witness :
  let w := Mock.fresh (Mock.make [Some (Mock.info "A" 1 0 0); None;
                                  Some (Mock.info "B" 0 1 0)] 0 []) in
  let w' := after_queries [C_Pm_CountDevices; C_Pm_GetDeviceInfo 0;
                           C_Pm_GetDeviceInfo 1] w in
  get_devices w = (Raise (IOError_device_not_found 1), w')
  /\ get_input_names w = (Raise (IOError_device_not_found 1), w')
  /\ get_output_names w = (Raise (IOError_device_not_found 1), w').
Proof.
  intros w w'.
  apply (get_devices_first_failure w 1 (IOError_device_not_found 1)).
  - cbn. lia.
  - reflexivity.
  - intros j Hj. assert (j = 0) as -> by lia. eexists. reflexivity.
Defined.

(** A name that is not UTF-8 stops the listing at its device: the later ids
    are not asked for. *)
Example get_devices_undecodable_name :
  let bad := String (ascii_of_nat 255) EmptyString in
  let w := Mock.fresh (Mock.make [Some (Mock.info bad 1 0 0); None] 0 []) in
  get_devices w
  = (Raise (UnicodeDecodeError bad),
     after_queries [C_Pm_CountDevices; C_Pm_GetDeviceInfo 0] w).
Proof. reflexivity. Qed.

(** ** Constructors *)

Section ConstructorRuns.
Context {D : Type} {pm : PmLib D} {P : Type} {parser : ParserOps P}.

Implicit Types (self : Port.t P) (w : World D).

Lemma find_device_found (this_is_input : bool) (name : string)
      (devices : list DeviceInfo.t) (device : DeviceInfo.t) :
  find_device this_is_input name devices = Return device ->
  In device devices
  /\ DeviceInfo.name device = name
  /\ wrong_type this_is_input device = false
  /\ DeviceInfo.opened device = false.
Proof.
  induction devices as [| d rest IH]; cbn [find_device]; [discriminate|].
  fold (wrong_type this_is_input d).
  destruct (String.eqb_spec (DeviceInfo.name d) name) as [Hname | Hname];
    cbn [negb].
  - destruct (wrong_type this_is_input d) eqn:Hwrong.
    + intros H. destruct (IH H) as (Hin & Hrest). split; [right|]; assumption.
    + destruct (DeviceInfo.opened d) eqn:Hopened; [discriminate|].
      intros [= <-]. repeat split; try assumption. left. reflexivity.
  - intros H. destruct (IH H) as (Hin & Hrest). split; [right|]; assumption.
Qed.

Lemma find_device_no_fuel (this_is_input : bool) (name : string)
      (devices : list DeviceInfo.t) :
  find_device this_is_input name devices <> OutOfFuel.
Proof.
  induction devices as [| d rest IH]; cbn [find_device]; [discriminate|].
  destruct (negb _); [exact IH|].
  destruct (if this_is_input then _ else _); [exact IH|].
  destruct (DeviceInfo.opened d); discriminate.
Qed.

Lemma for_each_device_no_fuel (ids : list Z) w :
  fst (for_each ids DeviceInfo__init__ w) <> OutOfFuel.
Proof.
  revert w. induction ids as [| i ids IH]; intros w; [discriminate|].
  cbn [for_each]. unfold bind at 1. rewrite DeviceInfo__init__run.
  destruct (Pm_GetDeviceInfo (lib w) i) as [info |]; [|discriminate].
  pose proof (device_of_info_no_fuel i info) as Hfuel.
  destruct (device_of_info i info) as [dev | e |];
    [| discriminate | congruence].
  unfold bind at 1. specialize (IH (log_call (C_Pm_GetDeviceInfo i) (lib w) w)).
  destruct (for_each ids DeviceInfo__init__ _) as [[ds | e |] w1];
    cbn in *; congruence.
Qed.

Lemma get_devices_no_fuel w : fst (get_devices w) <> OutOfFuel.
Proof. unfold get_devices. run_monad. apply for_each_device_no_fuel. Qed.

(** [select_device] always ends; it touches the name and the device of the
    port and nothing else, and leaves the port without a device when it
    raises. *)
Lemma select_device_frame (this_is_input : bool) (name : option string)
      self w :
  Port.name self = name ->
  Port.device self = None ->
  let r := select_device this_is_input name (self, w) in
  let self' := fst (snd r) in
  fst r <> OutOfFuel
  /\ Port.closed self' = Port.closed self
  /\ Port._parser self' = Port._parser self
  /\ Port._stream self' = Port._stream self
  /\ Port.__class__ self' = Port.__class__ self
  /\ (forall device, fst r = Return device ->
        Port.name self' = Some (DeviceInfo.name device))
  /\ (forall e, fst r = Raise e -> self' = self).
Proof.
  intros Hname Hnone. unfold select_device. destruct name as [n |].
  - run_monad. pose proof (get_devices_no_fuel w) as Hfuel.
    destruct (get_devices w) as [[devices | e |] w1]; cbn [fst snd] in *;
      [| repeat split; (discriminate || auto) | congruence].
    pose proof (find_device_no_fuel this_is_input n devices) as Hfuel'.
    destruct (find_device this_is_input n devices) as [dev | e |] eqn:Hfind;
      cbn [fst snd]; [| repeat split; (discriminate || auto) | congruence].
    repeat split; try discriminate.
    intros device [= <-]. cbn. rewrite Hname.
    destruct (find_device_found _ _ _ _ Hfind) as (_ & -> & _). reflexivity.
  - destruct this_is_input; run_monad;
      (match goal with
       | |- context [if ?c then _ else _] => destruct c
       end; [cbn [fst snd]; repeat split; (discriminate || auto)|]);
      cbn [fst snd]; rewrite DeviceInfo__init__run;
      (match goal with
       | |- context [Pm_GetDeviceInfo ?d ?i] =>
           destruct (Pm_GetDeviceInfo d i) as [info |]
       end;
       [match goal with
        | |- context [device_of_info ?i ?info] =>
            pose proof (device_of_info_no_fuel i info);
            destruct (device_of_info i info)
        end|];
       cbn [fst snd]; try congruence;
       repeat split; try discriminate; auto);
      intros device [= <-]; reflexivity.
Qed.

Lemma Port__init__run (cls : port_class) (name : option string) w :
  Port__init__ cls name w =
  match select_device (is_Input cls) name
          (blank (P := P) cls name, snd (_initialize w)) with
  | (Return device, st1) =>
      match open_stream (is_Input cls) (DeviceInfo.device_id device) st1 with
      | (Return rv, st2) =>
          if rv <? 0
          then (Raise (IOError_driver (Pm_GetErrorText (lib (snd st2)) rv)),
                (fst st2,
                 log_call (C_Pm_GetErrorText rv) (lib (snd st2)) (snd st2)))
          else set_device_opened true
                 (Port.set_closed false (fst st2), snd st2)
      | (Raise e, st2) => (Raise e, st2)
      | (OutOfFuel, st2) => (OutOfFuel, st2)
      end
  | (Raise e, st1) => (Raise e, st1)
  | (OutOfFuel, st1) => (OutOfFuel, st1)
  end.
Proof.
  unfold Port__init__, Port__init__body, bind, in_world, self_get, blank.
  cbn [fst snd].
  pose proof (initialize_returns w) as Hinit.
  destruct (_initialize w) as [r w0]. cbn [fst snd] in *. subst r.
  cbv beta iota delta [Port.__class__].
  destruct (select_device _ _ _) as [[device | e |] st1]; try reflexivity.
  destruct (open_stream _ _ _) as [[rv | e |] st2]; try reflexivity.
  cbn [fst snd]. rewrite check_error_run.
  destruct (rv <? 0); reflexivity.
Qed.

(** The run of [Port.__init__] once the device is selected and the stream
    opened with code [rv]. *)
Lemma Port__init__opened (cls : port_class) (name : option string) w
      (device : DeviceInfo.t) (st1 : Port.t P * World D)
      (rv : Z) (s : stream) (w' : World D) :
  select_device (is_Input cls) name (blank cls name, snd (_initialize w))
  = (Return device, st1) ->
  open_stream (is_Input cls) (DeviceInfo.device_id device) st1
  = (Return rv, (Port.set_stream s (fst st1), w')) ->
  Port__init__ (P := P) cls name w
  = if rv <? 0
    then (Raise (IOError_driver (Pm_GetErrorText (lib w') rv)),
          (Port.make cls (Some (DeviceInfo.name device)) true s
                     (Some device) None,
           log_call (C_Pm_GetErrorText rv) (lib w') w'))
    else (Return tt,
          (Port.make cls (Some (DeviceInfo.name device)) false s
                     (Some (DeviceInfo.set_opened true device)) None,
           w')).
Proof.
  intros Hselect Hopen.
  pose proof (select_device_frame (is_Input cls) name (blank cls name)
                (snd (_initialize w)) eq_refl eq_refl) as Hframe.
  cbn zeta in Hframe. rewrite Hselect in Hframe. cbn [fst snd] in Hframe.
  destruct Hframe as (_ & Hclosed & Hparser & _ & Hclass & Hname & _).
  specialize (Hname device eq_refl).
  destruct (select_device_returns _ _ _ _ _ _ Hselect) as (Hdevice & _).
  rewrite Port__init__run, Hselect, Hopen. cbn [fst snd].
  destruct st1 as [[c n cl s1 dv ps] w1]. cbn in *. subst.
  destruct (rv <? 0); reflexivity.
Qed.

Lemma new_run (cls : port_class) (name : option string) w :
  new cls name w =
  match Port__init__ (P := P) cls name w with
  | (Return _, (self, w')) =>
      (Return tt, (Port.set_parser
                     (match cls with
                      | Input => Some Parser
                      | Output => Port._parser self
                      end) self, w'))
  | other => other
  end.
Proof.
  destruct cls; unfold new, Input__init__, Output__init__.
  - destruct (Port__init__ Input name w) as [[[] | e |] [self w']]; reflexivity.
  - destruct (Port__init__ Output name w) as [[[] | e |] [self w']];
      try reflexivity.
    destruct self; reflexivity.
Qed.

(** The device [select_device] binds on the default path, from what the
    driver reports. *)
Lemma select_default_run (cls : port_class) w (info : PmDeviceInfo.t)
      (device : DeviceInfo.t) :
  0 <= default_id cls (lib w) ->
  Pm_GetDeviceInfo (lib w) (default_id cls (lib w)) = Some info ->
  device_of_info (default_id cls (lib w)) info = Return device ->
  select_device (is_Input cls) None (blank (P := P) cls None, w)
  = (Return device,
     (Port.make cls (Some (DeviceInfo.name device)) true 0 (Some device) None,
      after_queries [default_id_call cls;
                     C_Pm_GetDeviceInfo (default_id cls (lib w))] w)).
Proof.
  intros Hid Hinfo Hdevice. unfold select_device.
  destruct cls; cbn [is_Input default_id default_id_call] in *; run_monad;
    (match goal with
     | |- context [?i <? 0] =>
         replace (i <? 0) with false by (symmetry; apply Z.ltb_ge; lia)
     end);
    cbn [fst snd]; rewrite DeviceInfo__init__run;
    unfold log_call; cbn [lib calls _initialized];
    rewrite Hinfo, Hdevice; cbn [fst snd];
    unfold after_queries, blank; cbn [lib calls _initialized];
    rewrite <- app_assoc; reflexivity.
Qed.

(** The same on the by-name path. *)
Lemma select_by_name_run (cls : port_class) (n : string) w
      (devices : list DeviceInfo.t) (w1 : World D) (device : DeviceInfo.t) :
  get_devices w = (Return devices, w1) ->
  find_device (is_Input cls) n devices = Return device ->
  select_device (is_Input cls) (Some n) (blank (P := P) cls (Some n), w)
  = (Return device,
     (Port.make cls (Some n) true 0 (Some device) None, w1)).
Proof.
  intros Hget Hfind. unfold select_device. run_monad.
  rewrite Hget. cbn [fst snd]. rewrite Hfind. reflexivity.
Qed.

Lemma open_stream_run (cls : port_class) (device_id : Z) self w
      (rv : Z) (s : stream) (d' : D) :
  open_on cls (lib w) (Port._stream self) device_id = (rv, s, d') ->
  open_stream (is_Input cls) device_id (self, w)
  = (Return rv,
     (Port.set_stream s self, log_call (open_call cls device_id) d' w)).
Proof.
  intros Hopen. unfold open_stream.
  destruct cls; cbn [is_Input open_on open_call fst snd] in *;
    rewrite Hopen; reflexivity.
Qed.

(** C5, as the code has it. When the driver's stream-open call returns a
    negative code, the constructor raises the [IOError] that carries the
    driver's text for that code, the port is still closed, and it is bound to
    the device exactly as it was read.  On the default path that is the record
    built from the driver's info for the default id, so its [opened] flag is
    whatever the driver reported, true or false; on the by-name path it is the
    record the scan returned, one of the devices listed, whose flag is
    false. *)
Theorem open_failure (cls : port_class) w (rv : Z) (s : stream) (d' : D) :
  rv < 0 ->
  let w0 := snd (_initialize w) in
  (forall (info : PmDeviceInfo.t) (interface name : string),
      let i := default_id cls (lib w0) in
      0 <= i ->
      Pm_GetDeviceInfo (lib w0) i = Some info ->
      decode_utf8 (PmDeviceInfo.interface info) = Return interface ->
      decode_utf8 (PmDeviceInfo.name info) = Return name ->
      open_on cls (lib w0) 0 i = (rv, s, d') ->
      new cls None w
      = (Raise (IOError_driver (Pm_GetErrorText d' rv)),
         (Port.make cls (Some name) true s
            (Some (DeviceInfo.make i interface name
                     (PmDeviceInfo.is_input info)
                     (PmDeviceInfo.is_output info)
                     (truthy (PmDeviceInfo.opened info))))
            None,
          {| _initialized := _initialized w0; lib := d';
             calls := calls w0
                      ++ [default_id_call cls; C_Pm_GetDeviceInfo i;
                          open_call cls i; C_Pm_GetErrorText rv] |})))
  /\ (forall (n : string) (devices : list DeviceInfo.t) (w1 : World D)
             (device : DeviceInfo.t),
        get_devices w0 = (Return devices, w1) ->
        find_device (is_Input cls) n devices = Return device ->
        open_on cls (lib w1) 0 (DeviceInfo.device_id device) = (rv, s, d') ->
        new cls (Some n) w
        = (Raise (IOError_driver (Pm_GetErrorText d' rv)),
           (Port.make cls (Some n) true s (Some device) None,
            {| _initialized := _initialized w1; lib := d';
               calls := calls w1
                        ++ [open_call cls (DeviceInfo.device_id device);
                            C_Pm_GetErrorText rv] |}))
        /\ In device devices
        /\ DeviceInfo.opened device = false).
Proof.
  intros Hneg w0. apply Z.ltb_lt in Hneg. split.
  - intros info interface name i Hi Hinfo Hitf Hname Hopen.
    assert (Hdevice : device_of_info i info
                      = Return (DeviceInfo.make i interface name
                                  (PmDeviceInfo.is_input info)
                                  (PmDeviceInfo.is_output info)
                                  (truthy (PmDeviceInfo.opened info))))
      by (unfold device_of_info; rewrite Hitf, Hname; reflexivity).
    pose proof (select_default_run cls w0 info _ Hi Hinfo Hdevice) as Hselect.
    rewrite new_run.
    rewrite (Port__init__opened cls None w _ _ rv s
               (log_call (open_call cls i) d'
                  (after_queries [default_id_call cls; C_Pm_GetDeviceInfo i] w0))
               Hselect).
    + rewrite Hneg. unfold log_call, after_queries.
      cbn [lib calls _initialized DeviceInfo.name DeviceInfo.device_id].
      rewrite <- !app_assoc. reflexivity.
    + cbn [fst DeviceInfo.device_id]. apply open_stream_run. exact Hopen.
  - intros n devices w1 device Hget Hfind Hopen.
    destruct (find_device_found _ _ _ _ Hfind) as (Hin & Hname & _ & Hflag).
    split; [|split; assumption].
    pose proof (select_by_name_run cls n w0 devices w1 device Hget Hfind)
      as Hselect.
    rewrite new_run.
    rewrite (Port__init__opened cls (Some n) w _ _ rv s
               (log_call (open_call cls (DeviceInfo.device_id device)) d' w1)
               Hselect).
    + rewrite Hneg, Hname. unfold log_call.
      cbn [lib calls _initialized]. rewrite <- !app_assoc. reflexivity.
    + cbn [fst]. apply open_stream_run. exact Hopen.
Qed.

(** X7. When the device has been selected and the stream-open call returns
    a code that is not negative, the constructor returns; the port is open on
    the stream the driver wrote, carries the name of the device, and is bound
    to it with [opened] set; an [Input] has a fresh parser. *)
Theorem open_success (cls : port_class) (name : option string) w
        (device : DeviceInfo.t) (st1 st2 : Port.t P * World D) (rv : Z) :
  select_device (is_Input cls) name (blank cls name, snd (_initialize w))
  = (Return device, st1) ->
  open_stream (is_Input cls) (DeviceInfo.device_id device) st1
  = (Return rv, st2) ->
  0 <= rv ->
  new cls name w
  = (Return tt, (opened_port cls (Port._stream (fst st2)) device, snd st2)).
Proof.
  intros Hselect Hopen Hrv.
  destruct (open_stream_returns (is_Input cls) (DeviceInfo.device_id device) st1)
    as (rv' & s & w' & Hopen').
  rewrite Hopen in Hopen'. injection Hopen' as -> ->.
  rewrite new_run, (Port__init__opened cls name w device st1 rv' s w' Hselect Hopen).
  replace (rv' <? 0) with false by (symmetry; apply Z.ltb_ge; lia).
  destruct cls; reflexivity.
Qed.

(** What a constructor leaves, by outcome. *)
Lemma new_classified (cls : port_class) (name : option string) w :
  match new cls name w with
  | (Return _, (self, _)) =>
      Port.closed self = false
      /\ Port.__class__ self = cls
      /\ Port._parser self = parser_of cls
      /\ exists device,
           Port.device self = Some device
           /\ DeviceInfo.opened device = true
           /\ Port.name self = Some (DeviceInfo.name device)
  | (Raise _, (self, _)) =>
      Port.closed self = true /\ Port._parser self = None
  | (OutOfFuel, _) => False
  end.
Proof.
  rewrite new_run.
  pose proof (select_device_frame (is_Input cls) name (blank cls name)
                (snd (_initialize w)) eq_refl eq_refl) as Hframe.
  cbn zeta in Hframe.
  destruct (select_device (is_Input cls) name
              (blank cls name, snd (_initialize w)))
    as [[device | e |] st1] eqn:Hselect; cbn [fst snd] in Hframe.
  - destruct (open_stream_returns (is_Input cls)
                (DeviceInfo.device_id device) st1) as (rv & s & w' & Hopen).
    rewrite (Port__init__opened cls name w device st1 rv s w' Hselect Hopen).
    destruct (rv <? 0); [split; reflexivity|].
    destruct cls; cbn; repeat split; eauto.
  - destruct Hframe as (_ & _ & _ & _ & _ & _ & Hsame).
    specialize (Hsame e eq_refl).
    rewrite Port__init__run, Hselect.
    destruct st1 as [self w1]. cbn in Hsame. subst self. split; reflexivity.
  - destruct Hframe as (Hfuel & _). congruence.
Qed.

(** X8. A constructor always ends, and it returns exactly when it leaves the
    port open: when it returns, the port is open, bound to a device whose
    [opened] flag is set and whose name is the port's name, and an [Input]
    has its parser; when it raises, the port is closed and has no parser. *)
Theorem constructor_outcome (cls : port_class) (name : option string) w :
  match new cls name w with
  | (Return _, (self, _)) =>
      Port.closed self = false
      /\ Port.__class__ self = cls
      /\ Port._parser self = parser_of cls
      /\ exists device,
           Port.device self = Some device
           /\ DeviceInfo.opened device = true
           /\ Port.name self = Some (DeviceInfo.name device)
  | (Raise _, (self, _)) =>
      Port.closed self = true /\ Port._parser self = None
  | (OutOfFuel, _) => False
  end.
Proof. exact (new_classified cls name w). Qed.

Lemma close_on_closed self w :
  Port.closed self = true -> close (self, w) = (Return tt, (self, w)).
Proof.
  intros Hclosed. unfold close. run_monad. rewrite Hclosed. reflexivity.
Qed.

(** X9. The finaliser of an object whose constructor raised does nothing:
    it returns, makes no driver call and leaves the object as it is. *)
Theorem del_after_failed_constructor (cls : port_class)
        (name : option string) w (e : exn) (st : Port.t P * World D) :
  new cls name w = (Raise e, st) ->
  __del__ st = (Return tt, st).
Proof.
  intros Hnew. pose proof (new_classified cls name w) as H.
  rewrite Hnew in H. destruct st as [self w'].
  apply close_on_closed. apply H.
Qed.

(** X10. Asked for a port by name, when the scan raises ([unknown port] or
    [port already opened]) the constructor raises the same error having only
    listed the devices: no stream is opened, and the object is closed, with
    the requested name and no device. *)
Theorem lookup_failure (cls : port_class) (n : string) w
        (devices : list DeviceInfo.t) (w1 : World D) (e : exn) :
  get_devices (snd (_initialize w)) = (Return devices, w1) ->
  find_device (is_Input cls) n devices = Raise e ->
  new cls (Some n) w = (Raise e, (blank cls (Some n), w1)).
Proof.
  intros Hget Hfind. rewrite new_run, Port__init__run.
  unfold select_device. run_monad. rewrite Hget. cbn [fst snd].
  rewrite Hfind. reflexivity.
Qed.

(** X11. Asked for the default port, when the driver's default id is
    negative the constructor raises [IOError('no default port found')] after
    that one query: no device info is read and no stream is opened. *)
Theorem no_default_device (cls : port_class) w :
  (if is_Input cls
   then Pm_GetDefaultInputDeviceID (lib (snd (_initialize w)))
   else Pm_GetDefaultOutputDeviceID (lib (snd (_initialize w)))) < 0 ->
  new cls None w
  = (Raise IOError_no_default_port,
     (blank cls None,
      log_call (if is_Input cls
                then C_Pm_GetDefaultInputDeviceID
                else C_Pm_GetDefaultOutputDeviceID)
               (lib (snd (_initialize w))) (snd (_initialize w)))).
Proof.
  intros Hneg. rewrite new_run, Port__init__run.
  unfold select_device. apply Z.ltb_lt in Hneg.
  destruct cls; cbn [is_Input] in *; run_monad; rewrite Hneg; reflexivity.
Qed.
End ConstructorRuns.

Lemma open_failure_witness :
  (let w := Mock.fresh busy_default in
   new (P := list Message.t) Input None w
   = (Raise (IOError_driver "PortMidi: `Host error'"),
      (Port.make Input (Some "A") true 0
         (Some (DeviceInfo.make 0 "ALSA" "A" 1 0 true)) None,
       {| _initialized := false; lib := busy_default;
          calls := [C_Pm_GetDefaultInputDeviceID; C_Pm_GetDeviceInfo 0;
                    C_Pm_OpenInput 0 1000; C_Pm_GetErrorText (-9999)] |})))
  /\ (let w := Mock.fresh (Mock.make mock_table (-9999) []) in
      let device := DeviceInfo.make 1 "ALSA" "B" 0 1 false in
      new (P := list Message.t) Output (Some "B") w
      = (Raise (IOError_driver "PortMidi: `Host error'"),
         (Port.make Output (Some "B") true 0 (Some device) None,
          {| _initialized := false; lib := Mock.make mock_table (-9999) [];
             calls := [C_Pm_CountDevices; C_Pm_GetDeviceInfo 0;
                       C_Pm_GetDeviceInfo 1; C_Pm_OpenOutput 1 0 0;
                       C_Pm_GetErrorText (-9999)] |}))
      /\ In device [DeviceInfo.make 0 "ALSA" "A" 1 0 false; device]
      /\ DeviceInfo.opened device = false).
Proof.
  split.
  - exact (proj1 (open_failure (P := list Message.t) Input
                    (Mock.fresh busy_default) (-9999) 0 busy_default eq_refl)
             (Mock.info "A" 1 0 1) "ALSA" "A"
             (Z.le_refl 0) eq_refl eq_refl eq_refl eq_refl).
  - exact (proj2 (open_failure (P := list Message.t) Output
                    (Mock.fresh (Mock.make mock_table (-9999) []))
                    (-9999) 0 (Mock.make mock_table (-9999) []) eq_refl)
             "B"
             [DeviceInfo.make 0 "ALSA" "A" 1 0 false;
              DeviceInfo.make 1 "ALSA" "B" 0 1 false]
             {| _initialized := false; lib := Mock.make mock_table (-9999) [];
                calls := [C_Pm_CountDevices; C_Pm_GetDeviceInfo 0;
                          C_Pm_GetDeviceInfo 1] |}
             (DeviceInfo.make 1 "ALSA" "B" 0 1 false)
             eq_refl eq_refl eq_refl).
Defined.

Lemma open_success_witness :
  new Input (Some "A") (Mock.fresh (Mock.make mock_table 0 []))
  = (Return tt,
     (open_input,
      {| _initialized := false; lib := Mock.make mock_table 0 [];
         calls := [C_Pm_CountDevices; C_Pm_GetDeviceInfo 0;
                   C_Pm_GetDeviceInfo 1; C_Pm_OpenInput 0 1000] |})).
Proof.
  exact (open_success (P := list Message.t) Input (Some "A")
           (Mock.fresh (Mock.make mock_table 0 []))
           (DeviceInfo.make 0 "ALSA" "A" 1 0 false)
           (Port.make Input (Some "A") true 0
              (Some (DeviceInfo.make 0 "ALSA" "A" 1 0 false)) None,
            {| _initialized := false; lib := Mock.make mock_table 0 [];
               calls := [C_Pm_CountDevices; C_Pm_GetDeviceInfo 0;
                         C_Pm_GetDeviceInfo 1] |})
           (Port.make Input (Some "A") true 1
              (Some (DeviceInfo.make 0 "ALSA" "A" 1 0 false)) None,
            {| _initialized := false; lib := Mock.make mock_table 0 [];
               calls := [C_Pm_CountDevices; C_Pm_GetDeviceInfo 0;
                         C_Pm_GetDeviceInfo 1; C_Pm_OpenInput 0 1000] |})
           0 eq_refl eq_refl ltac:(lia)).
Defined.

Lemma del_after_failed_constructor_witness :
  let r := new (P := list Message.t) Input None (Mock.fresh busy_default) in
  fst r = Raise (IOError_driver "PortMidi: `Host error'")
  /\ __del__ (snd r) = (Return tt, snd r).
Proof.
  intros r. split; [reflexivity|].
  apply (del_after_failed_constructor Input None (Mock.fresh busy_default)
           (IOError_driver "PortMidi: `Host error'")).
  reflexivity.
Defined.

Lemma lookup_failure_witness :
  new (P := list Message.t) Input (Some "Ghost")
      (Mock.fresh (Mock.make mock_table 0 []))
  = (Raise (IOError_unknown_port "Ghost"),
     (blank Input (Some "Ghost"),
      {| _initialized := false; lib := Mock.make mock_table 0 [];
         calls := [C_Pm_CountDevices; C_Pm_GetDeviceInfo 0;
                   C_Pm_GetDeviceInfo 1] |})).
Proof.
  apply (lookup_failure (P := list Message.t) Input "Ghost"
           (Mock.fresh (Mock.make mock_table 0 []))
           [DeviceInfo.make 0 "ALSA" "A" 1 0 false;
            DeviceInfo.make 1 "ALSA" "B" 0 1 false]).
  - reflexivity.
  - reflexivity.
Defined.

Lemma no_default_device_witness :
  new (P := list Message.t) Output None
      {| _initialized := false; lib := 144 : Flood.driver; calls := [] |}
  = (Raise IOError_no_default_port,
     (blank Output None,
      {| _initialized := false; lib := 144 : Flood.driver;
         calls := [C_Pm_GetDefaultOutputDeviceID] |})).
Proof.
  apply (no_default_device (P := list Message.t) Output
           {| _initialized := false; lib := 144 : Flood.driver; calls := [] |}).
  cbn. lia.
Defined.

(** ** [close] *)

Section CloseRuns.
Context {D : Type} {pm : PmLib D} {P : Type}.

Implicit Types (self : Port.t P) (w : World D).

(** The run of [close] on an open port bound to a device. *)
Lemma close_run self w (device : DeviceInfo.t) :
  Port.closed self = false ->
  Port.device self = Some device ->
  close (self, w) =
  let s := Port._stream self in
  let '(rv, d) := Pm_Close (lib w) s in
  if rv <? 0
  then (Raise (IOError_driver (Pm_GetErrorText d rv)),
        (self, log_call (C_Pm_GetErrorText rv) d (log_call (C_Pm_Close s) d w)))
  else (Return tt,
        (Port.set_device (Some (DeviceInfo.set_opened false device))
                         (Port.set_closed true self),
         log_call (C_Pm_Close s) d w)).
Proof.
  intros Hopen Hdevice. unfold close. run_monad. rewrite Hopen.
  cbn [negb fst snd].
  destruct (Pm_Close (lib w) (Port._stream self)) as [rv d].
  cbn [fst snd]. rewrite check_error_run. cbn [lib log_call].
  destruct (rv <? 0); cbn [fst snd]; [reflexivity|].
  unfold set_device_opened. run_monad. cbn [Port.device Port.set_closed].
  rewrite Hdevice. reflexivity.
Qed.

(** X12. [close] on an open port whose stream the driver closes (code not
    negative) calls [Pm_Close] once on the port's stream and leaves the port
    closed with the [opened] flag of its device cleared; a second [close]
    then does nothing at all. *)
Theorem close_releases self w (device : DeviceInfo.t) (rv : Z) (d : D) :
  Port.closed self = false ->
  Port.device self = Some device ->
  Pm_Close (lib w) (Port._stream self) = (rv, d) ->
  0 <= rv ->
  let self' := Port.set_device (Some (DeviceInfo.set_opened false device))
                               (Port.set_closed true self) in
  let w' := log_call (C_Pm_Close (Port._stream self)) d w in
  close (self, w) = (Return tt, (self', w'))
  /\ close (self', w') = (Return tt, (self', w')).
Proof.
  intros Hopen Hdevice Hclose Hrv self' w'. split.
  - rewrite (close_run self w device Hopen Hdevice). cbn zeta. rewrite Hclose.
    replace (rv <? 0) with false by (symmetry; apply Z.ltb_ge; lia).
    reflexivity.
  - unfold close. run_monad. reflexivity.
Qed.

(** X13. When the driver's close returns a negative code, [close] raises
    [IOError] with the driver's text and the port is left exactly as it was:
    still open, its device still flagged as opened. *)
Theorem close_failure_keeps_port_open self w (device : DeviceInfo.t)
        (rv : Z) (d : D) :
  Port.closed self = false ->
  Port.device self = Some device ->
  Pm_Close (lib w) (Port._stream self) = (rv, d) ->
  rv < 0 ->
  close (self, w)
  = (Raise (IOError_driver (Pm_GetErrorText d rv)),
     (self,
      log_call (C_Pm_GetErrorText rv) d
               (log_call (C_Pm_Close (Port._stream self)) d w))).
Proof.
  intros Hopen Hdevice Hclose Hrv.
  rewrite (close_run self w device Hopen Hdevice). cbn zeta. rewrite Hclose.
  apply Z.ltb_lt in Hrv. rewrite Hrv. reflexivity.
Qed.

(** X14. [close] is idempotent: once a [close] has returned, on any port, a
    second [close] returns without a driver call and changes nothing. *)
Theorem close_twice self w :
  fst (close (self, w)) = Return tt ->
  close (snd (close (self, w))) = (Return tt, snd (close (self, w))).
Proof.
  intros Hreturned.
  assert (Hclosed : Port.closed (fst (snd (close (self, w)))) = true).
  { revert Hreturned. unfold close. run_monad.
    destruct (Port.closed self) eqn:Hc; cbn [negb fst snd]; [auto|].
    destruct (Pm_Close (lib w) (Port._stream self)) as [rv d]. cbn [fst snd].
    rewrite check_error_run. destruct (rv <? 0); cbn [fst snd]; [discriminate|].
    unfold set_device_opened. run_monad. cbn [Port.device Port.set_closed].
    destruct (Port.device self); cbn [fst snd]; [reflexivity | discriminate]. }
  destruct (snd (close (self, w))) as [self' w'] eqn:Hst. cbn [fst] in Hclosed.
  unfold close. run_monad. rewrite Hclosed. reflexivity.
Qed.
End CloseRuns.

Lemma close_releases_witness :
  let w := Mock.fresh (Mock.make mock_table 0 []) in
  let closed_input :=
    Port.make Input (Some "A") true 1
              (Some (DeviceInfo.make 0 "ALSA" "A" 1 0 false)) (Some []) in
  let w' := {| _initialized := false; lib := Mock.make mock_table 0 [];
               calls := [C_Pm_Close 1] |} in
  close (open_input, w) = (Return tt, (closed_input, w'))
  /\ close (closed_input, w') = (Return tt, (closed_input, w')).
Proof.
  exact (close_releases open_input (Mock.fresh (Mock.make mock_table 0 []))
           (DeviceInfo.make 0 "ALSA" "A" 1 0 true) 0 (Mock.make mock_table 0 [])
           eq_refl eq_refl eq_refl ltac:(lia)).
Defined.

Lemma close_failure_keeps_port_open_witness :
  let d := {| Mock.table := mock_table; Mock.default_input := 0;
              Mock.default_output := 1; Mock.open_code := 0;
              Mock.close_code := -9999; Mock.write_code := 0;
              Mock.pending := [] |} in
  close (open_input, Mock.fresh d)
  = (Raise (IOError_driver "PortMidi: `Host error'"),
     (open_input,
      {| _initialized := false; lib := d;
         calls := [C_Pm_Close 1; C_Pm_GetErrorText (-9999)] |})).
Proof.
  intros d.
  exact (close_failure_keeps_port_open open_input (Mock.fresh d)
           (DeviceInfo.make 0 "ALSA" "A" 1 0 true) (-9999) d
           eq_refl eq_refl eq_refl ltac:(lia)).
Defined.

Lemma close_twice_witness :
  let st := (open_input, Mock.fresh (Mock.make mock_table 0 [])) in
  close (snd (close st)) = (Return tt, snd (close st)).
Proof.
  intros st. apply close_twice. reflexivity.
Defined.

(** ** [send] and [poll], further *)

Section TransferRuns.
Context {D : Type} {pm : PmLib D} {P : Type} {parser : ParserOps P}.

Implicit Types (self : Port.t P) (w : World D) (p : P).

(** X15. On an open port a sysex message whose [bin()] values are all in
    0..255 goes to [Pm_WriteSysEx], once, with timestamp 0 and those bytes,
    whatever their number; [Pm_WriteShort] is not called, and [IOError] is
    raised only on a negative return of the driver.  When a value is outside
    0..255, [bytes()] raises [ValueError] before any driver call and nothing
    changes. *)
Theorem send_sysex_message (message : Message.t) self w :
  Port.closed self = false ->
  Message.type message = "sysex" ->
  let '(rv, d) :=
    Pm_WriteSysEx (lib w) (Port._stream self) 0 (Message.bin message) in
  send message (self, w) =
    if forallb byte_value (Message.bin message)
    then in_world (_check_error rv)
           (self,
            log_call (C_Pm_WriteSysEx (Port._stream self) 0
                                      (Message.bin message)) d w)
    else (Raise ValueError_bytes_out_of_range, (self, w)).
Proof.
  intros Hopen Hsysex.
  destruct (Pm_WriteSysEx (lib w) (Port._stream self) 0 (Message.bin message))
    as [rv d] eqn:Hwrite.
  unfold send. run_monad. rewrite Hopen, Hsysex. cbn [String.eqb fst snd].
  rewrite !Ascii.eqb_refl.
  destruct (forallb byte_value (Message.bin message)); [|reflexivity].
  cbn [fst snd]. rewrite Hwrite. reflexivity.
Qed.

Lemma same_binding_refl self : same_binding self self.
Proof. repeat split. Qed.

Lemma same_binding_set_parser (v : option P) self self' :
  same_binding self self' -> same_binding self (Port.set_parser v self').
Proof. intros H. exact H. Qed.

Lemma feed_packed_binding (n : nat) (value : Z) self w :
  same_binding self (fst (snd (feed_packed n value (self, w))))
  /\ snd (snd (feed_packed n value (self, w))) = w.
Proof.
  destruct (Port._parser self) as [p |] eqn:Hp.
  - rewrite (feed_packed_run n value self w p Hp). split; [|reflexivity].
    apply same_binding_set_parser, same_binding_refl.
  - destruct n as [| n]; cbn [feed_packed]; [split; [apply same_binding_refl|];
                                               reflexivity|].
    unfold bind at 1, parser_feed_byte. run_monad. rewrite Hp.
    split; [apply same_binding_refl | reflexivity].
Qed.

Lemma poll_loop_binding (fuel : nat) (buffer : PmEvent) self w :
  same_binding self (fst (snd (poll_loop fuel buffer (self, w)))).
Proof.
  revert buffer self w. induction fuel as [| fuel IH]; intros buffer self w;
    cbn [poll_loop]; [apply same_binding_refl|].
  run_monad.
  destruct (Pm_Poll (lib w) (Port._stream self)) as [pending d1].
  cbn [fst snd]. destruct (truthy pending); [|apply same_binding_refl].
  cbn [fst snd lib log_call].
  destruct (Pm_Read d1 (Port._stream self) buffer 1) as [[n b] d2].
  cbn [fst snd]. rewrite check_error_run.
  destruct (n <? 0); cbn [fst snd]; [apply same_binding_refl|].
  match goal with
  | |- context [feed_packed 4 ?v (self, ?w1)] =>
      destruct (feed_packed_binding 4 v self w1) as [Hfeed _];
      destruct (feed_packed 4 v (self, w1)) as [[[] | e |] [self1 w2]]
  end; cbn [fst snd] in *; try exact Hfeed.
  specialize (IH b self1 w2).
  destruct Hfeed as (H1 & H2 & H3 & H4 & H5).
  destruct IH as (I1 & I2 & I3 & I4 & I5).
  repeat split; congruence.
Qed.

Lemma send_keeps_self (message : Message.t) self w :
  fst (snd (send message (self, w))) = self.
Proof.
  unfold send. run_monad.
  destruct (Port.closed self); [reflexivity|].
  destruct (Message.type message =? "sysex")%string; cbn [fst snd];
    [destruct (forallb byte_value (Message.bin message)); [|reflexivity];
     cbn [fst snd]; destruct (Pm_WriteSysEx _ _ _ _) as [rv d]
    |destruct (Pm_WriteShort _ _ _ _) as [rv d]];
    cbn [fst snd]; rewrite check_error_run;
    destruct (rv <? 0); reflexivity.
Qed.

Lemma poll_binding (fuel : nat) self w :
  same_binding self (fst (snd (poll fuel (self, w)))).
Proof.
  unfold poll. unfold bind at 1, self_get at 1. cbn [fst snd].
  destruct (Port.closed self); [apply same_binding_refl|].
  unfold bind at 1.
  pose proof (poll_loop_binding fuel {| message := 0; timestamp := 0 |} self w)
    as Hloop.
  destruct (poll_loop fuel _ (self, w)) as [[[] | e |] [self1 w1]];
    cbn [fst snd] in *; try exact Hloop.
  run_monad. destruct (Port._parser self1); exact Hloop.
Qed.

(** X16. Whatever their outcome, [send] leaves the port object as it is, and
    [poll] changes at most its parser: neither opens, closes or rebinds the
    port. *)
Theorem transfers_keep_binding (message : Message.t) (fuel : nat) self w :
  fst (snd (send message (self, w))) = self
  /\ same_binding self (fst (snd (poll fuel (self, w)))).
Proof.
  split; [apply send_keeps_self | apply poll_binding].
Qed.

(** The loop of [poll] over the events a driver delivers: it goes on from
    the state the driver is left in, with the parser fed and the calls
    recorded. *)
Lemma poll_loop_delivers (s : stream) (d : D) (buffer : PmEvent)
      (events : list PmEvent) (d' : D) (buffer' : PmEvent) :
  delivers s d buffer events d' buffer' ->
  forall (fuel : nat) self p (init : bool) (cs : list call),
    Port._stream self = s ->
    Port._parser self = Some p ->
    poll_loop (List.length events + fuel) buffer
      (self, {| _initialized := init; lib := d; calls := cs |})
    = poll_loop fuel buffer'
        (Port.set_parser
           (Some (fold_left feed_byte (flat_map message_bytes events) p)) self,
         {| _initialized := init; lib := d';
            calls := cs ++ read_calls s (List.length events) |}).
Proof.
  induction 1 as [d buffer
                 | d d1 d2 d' buffer event buffer' pending num_events events
                     Hpoll Hyes Hread Hnum _ IH];
    intros fuel self p init cs Hs Hp.
  - cbn [List.length Nat.add flat_map fold_left read_calls].
    rewrite app_nil_r. destruct self; cbn in *. subst. reflexivity.
  - cbn [List.length Nat.add poll_loop]. run_monad. unfold log_call.
    cbn [fst snd lib calls _initialized]. rewrite Hs, Hpoll.
    cbn [fst snd lib calls _initialized]. rewrite Hyes.
    cbn [fst snd lib calls _initialized]. rewrite Hread.
    cbn [fst snd lib calls _initialized]. rewrite check_error_run.
    replace (num_events <? 0) with false by (symmetry; apply Z.ltb_ge; lia).
    cbn [fst snd].
    rewrite (feed_packed_run 4 _ _ _ p Hp). cbn [fst snd].
    rewrite (IH fuel _ (fold_left feed_byte (message_bytes event) p))
      by (cbn in *; first [assumption | reflexivity]).
    cbn [flat_map read_calls].
    rewrite fold_left_app, <- !app_assoc. reflexivity.
Qed.

(** X17. When the read of an event returns a negative code, [poll] raises
    [IOError] with the driver's text; the events delivered before it have
    been fed to the parser and stay fed. *)
Theorem poll_read_error (fuel : nat) self w p (events : list PmEvent)
        (d1 d2 d3 : D) (buffer buffer' : PmEvent) (pending rv : Z) :
  Port.closed self = false ->
  Port._parser self = Some p ->
  delivers (Port._stream self) (lib w) {| message := 0; timestamp := 0 |}
           events d1 buffer ->
  Pm_Poll d1 (Port._stream self) = (pending, d2) ->
  truthy pending = true ->
  Pm_Read d2 (Port._stream self) buffer 1 = (rv, buffer', d3) ->
  rv < 0 ->
  (List.length events < fuel)%nat ->
  let s := Port._stream self in
  poll fuel (self, w)
  = (Raise (IOError_driver (Pm_GetErrorText d3 rv)),
     (Port.set_parser
        (Some (fold_left feed_byte (flat_map message_bytes events) p)) self,
      {| _initialized := _initialized w; lib := d3;
         calls := calls w ++ read_calls s (List.length events)
                  ++ [C_Pm_Poll s; C_Pm_Read s 1; C_Pm_GetErrorText rv] |})).
Proof.
  intros Hopen Hp Hdel Hpoll Hyes Hread Hrv Hfuel s. subst s.
  unfold poll. unfold bind at 1, self_get at 1. cbn [fst snd].
  rewrite Hopen. unfold bind at 1.
  destruct w as [init d cs]. cbn [lib calls _initialized] in *.
  replace fuel with (List.length events + S (fuel - List.length events - 1))%nat
    by lia.
  rewrite (poll_loop_delivers _ _ _ _ _ _ Hdel _ self p init cs eq_refl Hp).
  cbn [poll_loop]. run_monad. unfold log_call.
  cbn [fst snd lib calls _initialized Port._stream Port.set_parser].
  rewrite Hpoll. cbn [fst snd lib calls _initialized]. rewrite Hyes.
  cbn [fst snd lib calls _initialized]. rewrite Hread.
  cbn [fst snd lib calls _initialized]. rewrite check_error_run.
  apply Z.ltb_lt in Hrv. rewrite Hrv. unfold log_call.
  cbn [fst snd lib calls _initialized].
  rewrite <- !app_assoc. reflexivity.
Qed.

(** X18. While the driver keeps answering that an event is pending and
    keeps delivering one, [poll] on an open input port does not return: it
    exhausts every bound on its loop. *)
Theorem poll_never_returns_on_flood (fuel : nat) self w p :
  (forall (d : D) (s : stream), truthy (fst (Pm_Poll d s)) = true) ->
  (forall (d : D) (s : stream) (b : PmEvent),
      0 <= fst (fst (Pm_Read d s b 1))) ->
  Port.closed self = false ->
  Port._parser self = Some p ->
  fst (poll fuel (self, w)) = OutOfFuel.
Proof.
  intros Hpending Hreads Hopen Hp.
  assert (Hloop : forall n buffer self0 w0 p0,
             Port._parser self0 = Some p0 ->
             fst (poll_loop n buffer (self0, w0)) = OutOfFuel).
  { intros k. induction k as [| k IH];
      intros buffer self0 w0 p0 Hp0; [reflexivity|].
    cbn [poll_loop]. run_monad.
    pose proof (Hpending (lib w0) (Port._stream self0)) as Hyes.
    destruct (Pm_Poll (lib w0) (Port._stream self0)) as [pending d1].
    cbn [fst snd] in *. rewrite Hyes. cbn [fst snd lib log_call].
    pose proof (Hreads d1 (Port._stream self0) buffer) as Hnum.
    destruct (Pm_Read d1 (Port._stream self0) buffer 1) as [[n b] d2].
    cbn [fst snd] in *. rewrite check_error_run.
    replace (n <? 0) with false by (symmetry; apply Z.ltb_ge; lia).
    cbn [fst snd]. rewrite (feed_packed_run 4 _ _ _ p0 Hp0). cbn [fst snd].
    eapply IH. reflexivity. }
  unfold poll. unfold bind at 1, self_get at 1. cbn [fst snd].
  rewrite Hopen. unfold bind at 1.
  specialize (Hloop fuel {| message := 0; timestamp := 0 |} self w p Hp).
  destruct (poll_loop fuel _ (self, w)) as [[[] | e |] st]; cbn in Hloop;
    try discriminate. reflexivity.
Qed.
End TransferRuns.

Lemma send_sysex_message_witness :
  send sysex_message (open_output, Mock.fresh (Mock.make mock_table 0 []))
  = (Return tt,
     (open_output,
      {| _initialized := false; lib := Mock.make mock_table 0 [];
         calls := [C_Pm_WriteSysEx 2 0 [240; 1; 2; 247]] |}))
  /\ send (Message.make "sysex" [240; 256; 247] [240; 256; 247])
          (open_output, Mock.fresh (Mock.make mock_table 0 []))
     = (Raise ValueError_bytes_out_of_range,
        (open_output, Mock.fresh (Mock.make mock_table 0 []))).
Proof.
  split.
  - exact (send_sysex_message sysex_message open_output
             (Mock.fresh (Mock.make mock_table 0 [])) eq_refl eq_refl).
  - exact (send_sysex_message
             (Message.make "sysex" [240; 256; 247] [240; 256; 247])
             open_output (Mock.fresh (Mock.make mock_table 0 []))
             eq_refl eq_refl).
Defined.

Lemma poll_read_error_witness :
  let note_on := {| message := 8339600; timestamp := 0 |} in
  let d : Faulty.driver := [(1, note_on); (-3, note_on); (1, note_on)] in
  poll 5 (open_input, {| _initialized := false; lib := d; calls := [] |})
  = (Raise (IOError_driver "PortMidi: `Buffer overflow'"),
     (Port.set_parser (Some [Message.make "status" [144] [144]]) open_input,
      {| _initialized := false; lib := [(1, note_on)] : Faulty.driver;
         calls := [C_Pm_Poll 1; C_Pm_Read 1 1; C_Pm_Poll 1; C_Pm_Read 1 1;
                   C_Pm_GetErrorText (-3)] |})).
Proof.
  intros note_on d.
  refine (poll_read_error 5 open_input
            {| _initialized := false; lib := d; calls := [] |} []
            [note_on] [(-3, note_on); (1, note_on)]
            [(-3, note_on); (1, note_on)] [(1, note_on)]
            note_on note_on 1 (-3) eq_refl eq_refl _ eq_refl eq_refl eq_refl
            ltac:(lia) ltac:(cbn; lia)).
  eapply delivers_event with (pending := 1) (num_events := 1);
    [reflexivity | reflexivity | reflexivity | lia | apply delivers_none].
Defined.

Lemma poll_never_returns_on_flood_witness :
  fst (poll 100 (open_input,
                 {| _initialized := false; lib := 8339600 : Flood.driver;
                    calls := [] |}))
  = OutOfFuel.
Proof.
  apply (poll_never_returns_on_flood 100 open_input
           {| _initialized := false; lib := 8339600 : Flood.driver;
              calls := [] |} []).
  - intros d s. reflexivity.
  - intros d s b. cbn. lia.
  - reflexivity.
  - reflexivity.
Defined.

(** ** [receive] and iteration *)

Section ReceiveRuns.
Context {D : Type} {pm : PmLib D} {P : Type} {ops : ParserOps P}
        {queue : ParserQueue P}.

Implicit Types (self : Port.t P) (w : World D) (p : P).

Lemma set_parser_same self p :
  Port._parser self = Some p -> Port.set_parser (Some p) self = self.
Proof. intros Hp. destruct self; cbn in *. subst. reflexivity. Qed.

Lemma get_message_empty self w p :
  pops_oldest ->
  Port._parser self = Some p ->
  _parsed_messages p = [] ->
  parser_get_message (self, w) = (Return None, (self, w)).
Proof.
  intros Hpops Hp Hempty. specialize (Hpops p). rewrite Hempty in Hpops.
  unfold parser_get_message. run_monad. rewrite Hp, Hpops. cbn [fst snd].
  rewrite (set_parser_same self p Hp). reflexivity.
Qed.

Lemma get_message_oldest self w p (m : Message.t) (rest : list Message.t) :
  pops_oldest ->
  Port._parser self = Some p ->
  _parsed_messages p = m :: rest ->
  exists p',
    parser_get_message (self, w)
    = (Return (Some m), (Port.set_parser (Some p') self, w))
    /\ _parsed_messages p' = rest.
Proof.
  intros Hpops Hp Hqueue. specialize (Hpops p). rewrite Hqueue in Hpops.
  destruct Hpops as (p' & Hget & Hrest). exists p'. split; [|exact Hrest].
  unfold parser_get_message. run_monad. rewrite Hp, Hget. reflexivity.
Qed.

Lemma receive_oldest (fuel : nat) self w p (m : Message.t)
      (rest : list Message.t) :
  pops_oldest ->
  Port._parser self = Some p ->
  _parsed_messages p = m :: rest ->
  exists p',
    receive fuel (self, w)
    = (Return (Some m), (Port.set_parser (Some p') self, w))
    /\ _parsed_messages p' = rest.
Proof.
  intros Hpops Hp Hqueue.
  destruct (get_message_oldest self w p m rest Hpops Hp Hqueue)
    as (p' & Hget & Hrest).
  exists p'. split; [|exact Hrest].
  unfold receive, bind. rewrite Hget. reflexivity.
Qed.

(** X19. When the parser already holds a message, [receive] returns the
    oldest one at once, open port or closed: the parser gives it up and no
    driver call is made. *)
Theorem receive_buffered_message (fuel : nat) self w p (m : Message.t)
        (rest : list Message.t) :
  pops_oldest ->
  Port._parser self = Some p ->
  _parsed_messages p = m :: rest ->
  exists p',
    receive fuel (self, w)
    = (Return (Some m), (Port.set_parser (Some p') self, w))
    /\ _parsed_messages p' = rest.
Proof. exact (receive_oldest fuel self w p m rest). Qed.

(** X20. On a closed port whose parser holds no message, [receive] never
    returns and never raises: every round of its loop finds [poll] returning
    [None], no driver call is made, and every bound is exhausted. *)
Theorem receive_on_closed_port_blocks (fuel : nat) self w p :
  pops_oldest ->
  Port.closed self = true ->
  Port._parser self = Some p ->
  _parsed_messages p = [] ->
  receive fuel (self, w) = (OutOfFuel, (self, w)).
Proof.
  intros Hpops Hclosed Hp Hempty.
  unfold receive. unfold bind at 1.
  rewrite (get_message_empty self w p Hpops Hp Hempty).
  generalize fuel at 2. intros rounds.
  induction rounds as [| rounds IH]; [reflexivity|].
  cbn [receive_wait]. unfold bind at 1.
  assert (Hpoll : poll fuel (self, w) = (Return None, (self, w))).
  { unfold poll. run_monad. rewrite Hclosed. reflexivity. }
  rewrite Hpoll. cbn [poll_truthy]. exact IH.
Qed.

Lemma poll_run_drains (fuel : nat) self w p (events : list PmEvent) (d' : D) :
  Port.closed self = false ->
  Port._parser self = Some p ->
  hands_out (Port._stream self) (lib w) {| message := 0; timestamp := 0 |}
            events d' ->
  (List.length events < fuel)%nat ->
  let p' := fold_left feed_byte (flat_map message_bytes events) p in
  poll fuel (self, w)
  = (Return (Some (Z.of_nat (List.length (_parsed_messages p')))),
     (Port.set_parser (Some p') self,
      {| _initialized := _initialized w; lib := d';
         calls := calls w
                  ++ poll_calls (Port._stream self) (List.length events) |})).
Proof.
  intros Hopen Hp Hdrv Hfuel p'.
  unfold poll. unfold bind at 1. unfold self_get at 1. cbn [fst snd].
  rewrite Hopen. unfold bind at 1.
  destruct w as [init d cs]. cbn [lib calls _initialized] in *.
  rewrite (poll_loop_drains _ _ _ _ _ Hdrv fuel self p init cs Hfuel eq_refl Hp).
  reflexivity.
Qed.

(** X21. On an open port whose parser holds no message, when the driver
    hands out events that leave the parser with at least one message and then
    reports nothing pending, [receive] returns the oldest of those messages
    after one [poll]; the others stay in the parser for the next calls. *)
Theorem receive_after_poll (fuel : nat) self w p (events : list PmEvent)
        (d' : D) (m : Message.t) (rest : list Message.t) :
  pops_oldest ->
  Port.closed self = false ->
  Port._parser self = Some p ->
  _parsed_messages p = [] ->
  hands_out (Port._stream self) (lib w) {| message := 0; timestamp := 0 |}
            events d' ->
  (List.length events < fuel)%nat ->
  _parsed_messages (fold_left feed_byte (flat_map message_bytes events) p)
  = m :: rest ->
  exists p',
    receive fuel (self, w)
    = (Return (Some m),
       (Port.set_parser (Some p') self,
        {| _initialized := _initialized w; lib := d';
           calls := calls w
                    ++ poll_calls (Port._stream self) (List.length events) |}))
    /\ _parsed_messages p' = rest.
Proof.
  intros Hpops Hopen Hp Hempty Hdrv Hfuel Hfed.
  unfold receive. unfold bind at 1.
  rewrite (get_message_empty self w p Hpops Hp Hempty).
  destruct fuel as [| rounds]; [lia|]. cbn [receive_wait]. unfold bind at 1.
  rewrite (poll_run_drains (S rounds) self w p events d' Hopen Hp Hdrv Hfuel).
  cbn zeta. rewrite Hfed. cbn [List.length poll_truthy].
  replace (truthy (Z.of_nat (S (List.length rest)))) with true
    by (symmetry; unfold truthy; apply negb_true_iff, Z.eqb_neq; lia).
  match goal with
  | |- context [parser_get_message (?self1, ?w1)] =>
      destruct (get_message_oldest self1 w1 _ m rest Hpops eq_refl Hfed)
        as (p' & Hget & Hrest)
  end.
  exists p'. split; [|exact Hrest]. rewrite Hget. reflexivity.
Qed.

(** X22. Iterating over a port whose parser holds messages yields them
    oldest first, one for each message held, without a driver call. *)
Theorem iteration_yields_buffered_in_order (fuel : nat) (ms : list Message.t) :
  pops_oldest ->
  forall self w p (rest : list Message.t),
    Port._parser self = Some p ->
    _parsed_messages p = ms ++ rest ->
    exists p',
      iter_take fuel (List.length ms) (self, w)
      = (Return (map Some ms), (Port.set_parser (Some p') self, w))
      /\ _parsed_messages p' = rest.
Proof.
  intros Hpops. induction ms as [| m ms IH]; intros self w p rest Hp Hqueue.
  - exists p. cbn. unfold ret. rewrite (set_parser_same self p Hp). auto.
  - cbn [List.length iter_take map]. unfold bind at 1.
    destruct (receive_oldest fuel self w p m (ms ++ rest) Hpops Hp Hqueue)
      as (p1 & Hreceive & Hrest1).
    rewrite Hreceive.
    destruct (IH (Port.set_parser (Some p1) self) w p1 rest eq_refl Hrest1)
      as (p' & Hiter & Hrest).
    exists p'. split; [|exact Hrest].
    unfold bind at 1. rewrite Hiter. reflexivity.
Qed.
End ReceiveRuns.

Lemma status_queue_pops_oldest : pops_oldest (P := list Message.t).
Proof. intros [| m rest]; cbn; eauto. Qed.

Lemma receive_buffered_message_witness :
  let a := Message.make "status" [144] [144] in
  let b := Message.make "status" [128] [128] in
  let self := Port.set_parser (Some [a; b]) open_input in
  let w := Mock.fresh (Mock.make mock_table 0
                         [{| message := 8339600; timestamp := 0 |}]) in
  exists p',
    receive 3 (self, w)
    = (Return (Some a), (Port.set_parser (Some p') self, w))
    /\ _parsed_messages p' = [b].
Proof.
  intros a b self w.
  exact (receive_buffered_message 3 self w [a; b] a [b]
           status_queue_pops_oldest eq_refl eq_refl).
Defined.

Lemma receive_on_closed_port_blocks_witness :
  let self := Port.set_closed true open_input in
  let w := Mock.fresh (Mock.make mock_table 0
                         [{| message := 8339600; timestamp := 0 |}]) in
  receive 50 (self, w) = (OutOfFuel, (self, w)).
Proof.
  intros self w.
  exact (receive_on_closed_port_blocks 50 self w []
           status_queue_pops_oldest eq_refl eq_refl eq_refl).
Defined.

Lemma receive_after_poll_witness :
  let events := [{| message := 8339600; timestamp := 0 |};
                 {| message := 32912; timestamp := 5 |}] in
  let w := Mock.fresh (Mock.make mock_table 0 events) in
  exists p',
    receive 3 (open_input, w)
    = (Return (Some (Message.make "status" [144] [144])),
       (Port.set_parser (Some p') open_input,
        {| _initialized := false; lib := Mock.make mock_table 0 [];
           calls := [C_Pm_Poll 1; C_Pm_Read 1 1; C_Pm_Poll 1; C_Pm_Read 1 1;
                     C_Pm_Poll 1] |}))
    /\ _parsed_messages p'
       = [Message.make "status" [144] [144];
          Message.make "status" [128] [128]].
Proof.
  intros events w.
  exact (receive_after_poll 3 open_input w [] events
           (Mock.make mock_table 0 []) _ _
           status_queue_pops_oldest eq_refl eq_refl eq_refl
           (mock_hands_out 1 (Mock.make mock_table 0 events) _)
           (le_n 3) eq_refl).
Defined.

Lemma iteration_yields_buffered_in_order_witness :
  let a := Message.make "status" [144] [144] in
  let b := Message.make "status" [128] [128] in
  let c := Message.make "status" [176] [176] in
  let self := Port.set_parser (Some [a; b; c]) open_input in
  let w := Mock.fresh (Mock.make mock_table 0 []) in
  exists p',
    iter_take 3 2 (self, w)
    = (Return [Some a; Some b], (Port.set_parser (Some p') self, w))
    /\ _parsed_messages p' = [c].
Proof.
  intros a b c self w.
  exact (iteration_yields_buffered_in_order 3 [a; b]
           status_queue_pops_oldest self w [a; b; c] [c] eq_refl eq_refl).
Defined.

(** ** Sessions *)

Create HintDb untouched.
#[local] Hint Resolve keeps_ret keeps_raise keeps_gets keeps_lift_outcome
  keeps_out_of_fuel : untouched.

Ltac untouched_step :=
  first
    [ apply keeps_bind; [|intro]
    | apply keeps_for_each; intro
    | solve [auto with untouched]
    | match goal with
      | |- keeps _ (if ?c then _ else _) => destruct c
      | |- keeps _ (match ?x with _ => _ end) => destruct x
      end ].

Section SessionRuns.
Context {D : Type} {pm : PmLib D} {P : Type} {parser : ParserOps P}.

Implicit Types (self : Port.t P) (w : World D).

Lemma untouched_log_call (c : call) (d : D) w :
  c <> C_Pm_Initialize -> c <> C_Pm_Terminate ->
  untouched w -> untouched (log_call c d w).
Proof.
  intros Hi Ht (Hflag & Hinit & Hterm). unfold untouched, log_call.
  cbn [calls _initialized]. split; [exact Hflag|].
  split; intros Hin; apply in_app_or in Hin;
    destruct Hin as [Hin | [Heq | []]]; auto; congruence.
Qed.

Lemma untouched_pm_call {A} (c : call) (f : D -> A * D) :
  c <> C_Pm_Initialize -> c <> C_Pm_Terminate ->
  keeps untouched (pm_call c f).
Proof.
  intros Hi Ht w Hw. unfold pm_call. destruct (f (lib w)) as [a d].
  cbn [snd]. apply untouched_log_call; assumption.
Qed.

Lemma untouched_pm_query {A} (c : call) (f : D -> A) :
  c <> C_Pm_Initialize -> c <> C_Pm_Terminate ->
  keeps untouched (pm_query c f).
Proof. intros Hi Ht. apply untouched_pm_call; assumption. Qed.

Lemma untouched_initialize : keeps untouched (_initialize (D := D)).
Proof.
  intros w Hw. rewrite initialize_run.
  destruct Hw as [Hflag Hcalls]. rewrite Hflag. split; assumption.
Qed.

Lemma untouched_terminate : keeps untouched (_terminate (D := D)).
Proof.
  intros w Hw. unfold _terminate. run_monad.
  destruct Hw as [Hflag Hcalls]. rewrite Hflag. split; assumption.
Qed.

Lemma untouched_in_world {A} (m : M (World D) A) :
  keeps untouched m -> keeps method_untouched (in_world (P := P) m).
Proof.
  intros Hm [self w] Hw. unfold in_world. cbn [fst snd].
  specialize (Hm w Hw). destruct (m w) as [r w']. exact Hm.
Qed.

Lemma untouched_self_get {A} (f : Port.t P -> A) :
  keeps method_untouched (self_get (D := D) f).
Proof. intros st Hst. exact Hst. Qed.

Lemma untouched_self_set (f : Port.t P -> Port.t P) :
  keeps method_untouched (self_set (D := D) f).
Proof. intros st Hst. exact Hst. Qed.

Lemma untouched_open_stream (this_is_input : bool) (device_id : Z) :
  keeps method_untouched (open_stream (P := P) this_is_input device_id).
Proof.
  intros [self w] Hw. unfold open_stream, method_untouched in *.
  cbn [fst snd] in *.
  destruct this_is_input;
    [destruct (Pm_OpenInput _ _ _ _) as [[rv s] d]
    |destruct (Pm_OpenOutput _ _ _ _ _) as [[rv s] d]];
    cbn [snd]; apply untouched_log_call; (discriminate || assumption).
Qed.

#[local] Hint Resolve untouched_initialize untouched_terminate
  untouched_in_world untouched_self_get untouched_self_set
  untouched_open_stream : untouched.
#[local] Hint Extern 1 (keeps _ (pm_call _ _)) =>
  apply untouched_pm_call; discriminate : untouched.
#[local] Hint Extern 1 (keeps _ (pm_query _ _)) =>
  apply untouched_pm_query; discriminate : untouched.

Lemma untouched_check_error (rv : Z) :
  keeps untouched (_check_error (D := D) rv).
Proof. unfold _check_error. repeat untouched_step. Qed.

Lemma untouched_DeviceInfo__init__ (device_id : Z) :
  keeps untouched (DeviceInfo__init__ (D := D) device_id).
Proof. unfold DeviceInfo__init__. repeat untouched_step. Qed.

#[local] Hint Resolve untouched_check_error untouched_DeviceInfo__init__
  : untouched.

Lemma untouched_get_devices : keeps untouched (get_devices (D := D)).
Proof. unfold get_devices. repeat untouched_step. Qed.

#[local] Hint Resolve untouched_get_devices : untouched.

Lemma untouched_get_input_names : keeps untouched (get_input_names (D := D)).
Proof. unfold get_input_names. repeat untouched_step. Qed.

Lemma untouched_get_output_names : keeps untouched (get_output_names (D := D)).
Proof. unfold get_output_names. repeat untouched_step. Qed.

Lemma untouched_select_device (this_is_input : bool) (name : option string) :
  keeps method_untouched
        (select_device (D := D) (P := P) this_is_input name).
Proof.
  unfold select_device. destruct name as [n |]; [|destruct this_is_input];
    repeat untouched_step.
Qed.

Lemma untouched_set_device_opened (v : bool) :
  keeps method_untouched (set_device_opened (D := D) (P := P) v).
Proof. unfold set_device_opened. repeat untouched_step. Qed.

#[local] Hint Resolve untouched_select_device untouched_set_device_opened
  : untouched.

Lemma untouched_Port__init__body (name : option string) :
  keeps method_untouched (Port__init__body (D := D) (P := P) name).
Proof. unfold Port__init__body. repeat untouched_step. Qed.

Lemma untouched_close : keeps method_untouched (close (D := D) (P := P)).
Proof. unfold close. repeat untouched_step. Qed.

Lemma untouched_feed_packed (n : nat) (value : Z) :
  keeps method_untouched (feed_packed (D := D) (P := P) n value).
Proof.
  intros [self w] Hw. unfold method_untouched.
  destruct (feed_packed_binding n value self w) as [_ ->]. exact Hw.
Qed.

#[local] Hint Resolve untouched_feed_packed : untouched.

Lemma untouched_poll_loop (fuel : nat) (read_buffer : PmEvent) :
  keeps method_untouched (poll_loop (D := D) (P := P) fuel read_buffer).
Proof.
  revert read_buffer. induction fuel as [| fuel IH]; intros read_buffer;
    cbn [poll_loop]; [apply keeps_out_of_fuel|].
  apply keeps_bind; [auto with untouched|]. intros s.
  apply keeps_bind; [auto with untouched|]. intros pending.
  destruct (truthy pending); [|apply keeps_ret].
  apply keeps_bind; [auto with untouched|]. intros r.
  apply keeps_bind; [auto with untouched|]. intros _.
  apply keeps_bind; [auto with untouched|]. intros _. apply IH.
Qed.

#[local] Hint Resolve untouched_poll_loop : untouched.

Lemma untouched_poll (fuel : nat) :
  keeps method_untouched (poll (D := D) (P := P) fuel).
Proof. unfold poll. repeat untouched_step. Qed.

Lemma untouched_send (message : Message.t) :
  keeps method_untouched (send (D := D) (P := P) message).
Proof. unfold send. repeat untouched_step. Qed.

Lemma untouched_new (cls : port_class) (name : option string) w :
  untouched w -> untouched (snd (snd (new (P := P) cls name w))).
Proof.
  intros Hw. rewrite new_run.
  pose proof (untouched_Port__init__body name (blank cls name, w) Hw) as H.
  unfold method_untouched in H.
  change (Port__init__body name (blank cls name, w))
    with (Port__init__ (P := P) cls name w) in H.
  destruct (Port__init__ cls name w) as [[[] | e |] [self w']]; exact H.
Qed.

Lemma run_op_untouched (o : op) (s : @Session D P) :
  untouched (world s) -> untouched (world (run_op o s)).
Proof.
  intros Hs.
  assert (Hmethod : forall A i (m : M (Port.t P * World D) A),
             keeps method_untouched m ->
             untouched (world (run_method i m s))).
  { intros A i m Hm. unfold run_method.
    destruct (nth_error (ports s) i) as [self |]; [|exact Hs].
    apply (Hm (self, world s)). exact Hs. }
  assert (Hctor : forall cls name,
             untouched (world (run_constructor (new cls name) s))).
  { intros cls name. unfold run_constructor.
    pose proof (untouched_new cls name (world s) Hs) as H.
    destruct (new cls name (world s)) as [[[] | e |] [self w']]; exact H. }
  destruct o; cbn [run_op].
  - apply untouched_initialize. exact Hs.
  - apply untouched_terminate. exact Hs.
  - apply untouched_get_devices. exact Hs.
  - apply untouched_get_input_names. exact Hs.
  - apply untouched_get_output_names. exact Hs.
  - apply (Hctor Input).
  - apply (Hctor Output).
  - apply Hmethod, untouched_close.
  - apply Hmethod, untouched_close.
  - apply Hmethod. intros st Hst. unfold method_untouched.
    rewrite with_state. exact Hst.
  - apply Hmethod, untouched_poll.
  - apply Hmethod, untouched_send.
Qed.

(** X23. No sequence of the module's operations, [_terminate] among them,
    ever calls [Pm_Terminate]: the driver is never shut down. *)
Theorem driver_never_terminated (d : D) (ops : list op) :
  ~ In C_Pm_Terminate (calls (world (run ops (start (P := P) d)))).
Proof.
  assert (Hrun : forall s : @Session D P,
             untouched (world s) -> untouched (world (run ops s))).
  { unfold run. induction ops as [| o ops IH]; intros s Hs; cbn [fold_left].
    - exact Hs.
    - apply IH. apply run_op_untouched. exact Hs. }
  apply (Hrun (start d)). repeat split; intros [].
Qed.
End SessionRuns.

Section PortsOfASession.
Context {D : Type} {pm : PmLib D} {P : Type} {parser : ParserOps P}.

Implicit Types (self : Port.t P) (w : World D).

Lemma update_nth_Forall {A} (Q : A -> Prop) (i : nat) (x : A) (l : list A) :
  Forall Q l -> Q x -> Forall Q (update_nth i x l).
Proof.
  intros Hl Hx. revert i. induction Hl as [| y l Hy Hl IH]; intros i.
  - destruct i; cbn [update_nth]; constructor.
  - destruct i; cbn [update_nth]; constructor;
      first [assumption | apply IH].
Qed.

Lemma same_binding_mirrors self self' :
  same_binding self self' -> mirrors self -> mirrors self'.
Proof.
  intros (_ & _ & Hclosed & _ & Hdevice) (device & Hdev & Hflag).
  exists device. rewrite Hdevice, Hclosed. auto.
Qed.

Lemma close_mirrors self w :
  mirrors self -> mirrors (fst (snd (close (self, w)))).
Proof.
  intros Hself. destruct (Port.closed self) eqn:Hclosed.
  - rewrite close_on_closed by exact Hclosed. exact Hself.
  - destruct Hself as (device & Hdevice & Hflag).
    rewrite (close_run self w device Hclosed Hdevice). cbn zeta.
    destruct (Pm_Close (lib w) (Port._stream self)) as [rv d].
    destruct (rv <? 0); cbn [fst snd].
    + exists device. split; assumption.
    + exists (DeviceInfo.set_opened false device). split; reflexivity.
Qed.

Lemma run_op_mirrors (o : op) (s : @Session D P) :
  Forall mirrors (ports s) -> Forall mirrors (ports (run_op o s)).
Proof.
  intros Hs.
  assert (Hmethod : forall A i (m : M (Port.t P * World D) A),
             (forall self w, mirrors self ->
                             mirrors (fst (snd (m (self, w))))) ->
             Forall mirrors (ports (run_method i m s))).
  { intros A i m Hm. unfold run_method.
    destruct (nth_error (ports s) i) as [self |] eqn:Hnth; [|exact Hs].
    cbn [ports]. apply update_nth_Forall; [exact Hs|]. apply Hm.
    rewrite Forall_forall in Hs. apply Hs.
    eapply nth_error_In. exact Hnth. }
  assert (Hctor : forall cls name,
             Forall mirrors (ports (run_constructor (new cls name) s))).
  { intros cls name. unfold run_constructor.
    pose proof (new_classified cls name (world s)) as Hnew.
    destruct (new cls name (world s)) as [[[] | e |] [self w']]; try exact Hs.
    cbn [ports]. apply Forall_app. split; [exact Hs|].
    constructor; [|constructor].
    destruct Hnew as (Hclosed & _ & _ & device & Hdevice & Hflag & _).
    exists device. rewrite Hclosed. split; assumption. }
  destruct o; cbn [run_op]; try exact Hs.
  - apply (Hctor Input).
  - apply (Hctor Output).
  - apply Hmethod, close_mirrors.
  - apply Hmethod, close_mirrors.
  - apply Hmethod. intros self w Hself. rewrite with_state. exact Hself.
  - apply Hmethod. intros self w Hself.
    eapply same_binding_mirrors; [apply poll_binding | exact Hself].
  - apply Hmethod. intros self w Hself. rewrite send_keeps_self. exact Hself.
Qed.

(** X24. In every session, each port the caller holds is bound to a device
    whose [opened] flag is true exactly when the port is open: constructors
    hand out open ports with the flag set, a [close] that returns clears
    both, a [close] that raises leaves both, and no other method touches
    them. *)
Theorem session_ports_mirror_devices (d : D) (ops : list op) :
  Forall mirrors (ports (run ops (start (P := P) d))).
Proof.
  assert (Hrun : forall s : @Session D P,
             Forall mirrors (ports s) -> Forall mirrors (ports (run ops s))).
  { unfold run. induction ops as [| o ops IH]; intros s Hs; cbn [fold_left].
    - exact Hs.
    - apply IH. apply run_op_mirrors. exact Hs. }
  apply (Hrun (start d)). constructor.
Qed.
End PortsOfASession.
